(** * Electric field of point charges: the evaluator and the grid sampler

    A shallow embedding of [get_electric_field] and of the grid-sampling
    loops of [plot_electric_field] ("first try.py", the standalone
    script) and [create_plot] ("secondTry.py", the interactive page),
    with the properties the design document states about them.

    Python's [float] is read in two ways.
    - Exact arithmetic over [R]: the algebraic laws (superposition,
      symmetry, inverse-square falloff) are laws of exact arithmetic.
      Division by zero and the square root of a negative number are the
      operations that fail; a second, checked evaluator makes them
      explicit.
    - IEEE 754 binary64 over Rocq's primitive [float]: the arithmetic
      the interpreter really performs, used to evaluate the code on
      concrete inputs, overflow included. *)

From Stdlib Require Import PrimFloat SpecFloat FloatOps FloatAxioms.
From Stdlib Require Import Reals Lra Lia List Bool.
From stdpp Require Import base list.
Import ListNotations.

Local Open Scope R_scope.

(** ** Data model *)

(** A charge is the triple [(q, x_pos, y_pos)] the loops destructure. *)
Definition charge : Type := R * R * R.

(** A field vector [(Ex, Ey)]. *)
Definition vec : Type := R * R.

Definition vadd (u v : vec) : vec := (fst u + fst v, snd u + snd v).
Definition vopp (u : vec) : vec := (- fst u, - snd u).
Definition vscale (k : R) (u : vec) : vec := (k * fst u, k * snd u).
Definition magnitude (u : vec) : R := sqrt (fst u ^ 2 + snd u ^ 2).

(** ** Errors

    What can go wrong in the code modelled: a division by zero (Python
    raises [ZeroDivisionError] on its own floats, NumPy returns [inf] or
    [nan] on its scalars), the square root of a negative number
    ([np.sqrt] returns [nan]) and an index outside an array. *)

Inductive error : Type :=
| ZeroDivisionError
| SqrtDomainError
| IndexError.

Inductive result (A : Type) : Type :=
| Ok (a : A)
| Raise (e : error).
Arguments Ok {A} a.
Arguments Raise {A} e.

#[export] Instance result_ret : MRet result := fun _ a => Ok a.

#[export] Instance result_bind : MBind result := fun _ _ k m =>
  match m with
  | Ok a => k a
  | Raise e => Raise e
  end.

Definition div_checked (a b : R) : result R :=
  if Req_dec_T b 0 then Raise ZeroDivisionError else Ok (a / b).

Definition sqrt_checked (a : R) : result R :=
  if Rlt_dec a 0 then Raise SqrtDomainError else Ok (sqrt a).

(** ** The field evaluator, exact arithmetic

    The two files' [get_electric_field] are the same loop and differ in
    the guard in front of [continue]; [skip] is that guard, as a test on
    [r_squared]. *)

Section FieldEvaluator.

Variable skip : R -> bool.

(** One iteration of [for q, qx, qy in charges]: [None] when the guard
    fires and the iteration ends in [continue], otherwise the pair
    added to [(Ex, Ey)]. *)
Definition contribution (x y : R) (c : charge) : option vec :=
  let '(q, qx, qy) := c in
  let dx := x - qx in
  let dy := y - qy in
  let r_squared := dx ^ 2 + dy ^ 2 in
  if skip r_squared then None
  else
    let r := sqrt r_squared in
    let E := q / r_squared in
    Some (E * (dx / r), E * (dy / r)).

Definition accumulate (x y : R) (acc : vec) (c : charge) : vec :=
  match contribution x y c with
  | None => acc
  | Some e => vadd acc e
  end.

(** What the iteration for [c] adds to [(Ex, Ey)]: nothing, that is
    [(0, 0)], when it is skipped. *)
Definition term (x y : R) (c : charge) : vec :=
  match contribution x y c with
  | None => (0, 0)
  | Some e => e
  end.

(** [Ex, Ey = 0, 0], the loop, [return Ex, Ey]. *)
Definition evaluate (charges : list charge) (x y : R) : vec :=
  fold_left (accumulate x y) charges (0, 0).

(** The same iteration with the partial operations checked. *)
Definition contribution_checked (x y : R) (c : charge) : result (option vec) :=
  let '(q, qx, qy) := c in
  let dx := x - qx in
  let dy := y - qy in
  let r_squared := dx ^ 2 + dy ^ 2 in
  if skip r_squared then Ok None
  else
    r ← sqrt_checked r_squared;
    E ← div_checked q r_squared;
    ux ← div_checked dx r;
    uy ← div_checked dy r;
    Ok (Some (E * ux, E * uy)).

Fixpoint loop_checked (x y : R) (charges : list charge) (acc : vec) : result vec :=
  match charges with
  | [] => Ok acc
  | c :: rest =>
      e ← contribution_checked x y c;
      loop_checked x y rest
        (match e with None => acc | Some e => vadd acc e end)
  end.

Definition evaluate_checked (charges : list charge) (x y : R) : result vec :=
  loop_checked x y charges (0, 0).

End FieldEvaluator.

(** ** The field evaluator, binary64

    The same loop on IEEE 754 doubles, round to nearest even. [dx**2] is
    the product [dx * dx] rounded once. Nothing raises here: an
    overflow returns an infinity, as it does on the NumPy scalars the
    grid hands to [get_electric_field]. *)

Module B64.

Local Open Scope float_scope.

Definition charge : Type := float * float * float.
Definition vec : Type := float * float.

Section FieldEvaluator.

Variable skip : float -> bool.

Definition contribution (x y : float) (c : charge) : option vec :=
  let '(q, qx, qy) := c in
  let dx := x - qx in
  let dy := y - qy in
  let r_squared := dx * dx + dy * dy in
  if skip r_squared then None
  else
    let r := PrimFloat.sqrt r_squared in
    let E := q / r_squared in
    Some (E * (dx / r), E * (dy / r)).

Definition vadd (u v : vec) : vec := (fst u + fst v, snd u + snd v).

Definition accumulate (x y : float) (acc : vec) (c : charge) : vec :=
  match contribution x y c with
  | None => acc
  | Some e => vadd acc e
  end.

Definition evaluate (charges : list charge) (x y : float) : vec :=
  fold_left (accumulate x y) charges (0, 0).

End FieldEvaluator.

Definition is_finite (f : float) : bool :=
  negb (is_nan f || is_infinity f).

(** The value [r_squared] takes in the iteration for [c]. *)
Definition r_squared_of (c : charge) (x y : float) : float :=
  let '(_, qx, qy) := c in (x - qx) * (x - qx) + (y - qy) * (y - qy).

(** [np.sqrt(Ex**2 + Ey**2)] for one vector. *)
Definition magnitude (v : vec) : float :=
  PrimFloat.sqrt (fst v * fst v + snd v * snd v).


End B64.

(** ** Arrays and the NumPy calls of the sampling step

    A two-dimensional array is the list of its rows. [np.linspace],
    [np.meshgrid] and [np.zeros] follow NumPy's documentation; indexing
    outside an array raises [IndexError]. *)

Abbreviation array2 := (list (list R)).

(** [a.shape]; an array without rows has shape [(0, 0)], which is what
    [np.meshgrid] returns for two empty axes. *)
Definition shape (a : array2) : nat * nat :=
  (length a, match a with [] => 0%nat | row :: _ => length row end).

(** [a] has [rows] rows of [cols] entries each. *)
Definition rectangular (a : array2) (rows cols : nat) : Prop :=
  length a = rows /\ Forall (fun row => length row = cols) a.

Definition zeros (sh : nat * nat) : array2 :=
  replicate (fst sh) (replicate (snd sh) 0).

(** [a[i, j]] *)
Definition load (a : array2) (i j : nat) : result R :=
  match a !! i with
  | Some row =>
      match row !! j with
      | Some v => Ok v
      | None => Raise IndexError
      end
  | None => Raise IndexError
  end.

(** [a[i, j] = v] *)
Definition store (a : array2) (i j : nat) (v : R) : result array2 :=
  match a !! i with
  | Some row =>
      if (j <? length row)%nat then Ok (<[i := <[j := v]> row]> a)
      else Raise IndexError
  | None => Raise IndexError
  end.

(** [np.linspace(start, stop, num)]: [num] samples [k * step + start]
    with [step = (stop - start) / (num - 1)], the last one set to
    [stop]. *)
Definition linspace (start stop : R) (num : nat) : list R :=
  let step := (stop - start) / INR (num - 1) in
  let y := map (fun k => INR k * step + start) (seq 0 num) in
  if (1 <? num)%nat then <[(num - 1)%nat := stop]> y else y.

(** [np.meshgrid(x, y)]: [X[i, j] = x[j]] and [Y[i, j] = y[i]], both of
    shape [(len(y), len(x))]. *)
Definition meshgrid (x y : list R) : array2 * array2 :=
  (map (fun _ => x) y, map (fun yi => map (fun _ => yi) x) y).

Definition range (n : nat) : list nat := seq 0 n.

(** [for i in idx: s = body(i, s)] *)
Fixpoint for_each {S : Type} (body : nat -> S -> result S) (idx : list nat)
    (s : S) : result S :=
  match idx with
  | [] => Ok s
  | i :: rest => s' ← body i s; for_each body rest s'
  end.

(** ** The grid sampler

    The sampling step of [plot_electric_field] and of [create_plot], from
    [np.linspace] to the end of the double loop; [field] is the
    [get_electric_field] the loop calls. The result is the pair
    [(Ex, Ey)] that goes to [streamplot]. *)

Section GridSampler.

Variable field : list charge -> R -> R -> result vec.

(** [Ex[i, j], Ey[i, j] = get_electric_field(charges, X[i, j], Y[i, j])] *)
Definition fill_cell (charges : list charge) (X Y : array2) (i j : nat)
    (st : array2 * array2) : result (array2 * array2) :=
  let '(Ex, Ey) := st in
  xij ← load X i j;
  yij ← load Y i j;
  e ← field charges xij yij;
  Ex' ← store Ex i j (fst e);
  Ey' ← store Ey i j (snd e);
  Ok (Ex', Ey').

Definition sample (charges : list charge) (x_range y_range : R * R)
    (grid_density : nat) : result (array2 * array2) :=
  let x := linspace (fst x_range) (snd x_range) grid_density in
  let y := linspace (fst y_range) (snd y_range) grid_density in
  let '(X, Y) := meshgrid x y in
  for_each
    (fun i => for_each (fill_cell charges X Y i) (range (snd (shape Y))))
    (range (fst (shape X)))
    (zeros (shape X), zeros (shape Y)).

End GridSampler.

(** ** After the double loop

    What the two plotting functions compute from [Ex] and [Ey] and from
    the charge list before they draw. *)

(** [E_magnitude = np.sqrt(Ex**2 + Ey**2)], element by element. *)
Definition E_magnitude (Ex Ey : array2) : array2 :=
  zip_with (zip_with (fun ex ey => sqrt (ex ^ 2 + ey ^ 2))) Ex Ey.

(** A NumPy float that need not be finite. *)
Inductive np_float : Type :=
| Finite (v : R)
| Inf (negative : bool)
| NaN.

(** [a / b] on NumPy floats under
    [np.errstate(divide='ignore', invalid='ignore')]: [0 / 0] is [nan]
    and any other division by zero an infinity, without a warning. *)
Definition true_divide (a b : R) : np_float :=
  if Req_dec_T b 0 then
    if Req_dec_T a 0 then NaN
    else Inf (if Rlt_dec a 0 then true else false)
  else Finite (a / b).

(** [Ex_norm = Ex / E_magnitude] and [Ey_norm = Ey / E_magnitude]. *)
Definition normalize (Ex Ey : array2)
  : list (list np_float) * list (list np_float) :=
  let E_mag := E_magnitude Ex Ey in
  (zip_with (zip_with true_divide) Ex E_mag,
   zip_with (zip_with true_divide) Ey E_mag).

Inductive color : Type := red | blue.

(** [color = 'red' if q > 0 else 'blue'] *)
Definition marker_color (q : R) : color :=
  if Rlt_dec 0 q then red else blue.

(** ** "first try.py": the guard is [r_squared == 0] *)

Module FirstTry.

Definition skip (r_squared : R) : bool :=
  if Req_dec_T r_squared 0 then true else false.

Definition get_electric_field : list charge -> R -> R -> vec :=
  evaluate skip.

Definition get_electric_field_checked : list charge -> R -> R -> result vec :=
  evaluate_checked skip.

(** [plot_electric_field], up to the arrays [Ex, Ey]. *)
Definition plot_electric_field
  : list charge -> R * R -> R * R -> nat -> result (array2 * array2) :=
  sample get_electric_field_checked.

(** [plot_electric_field], up to [Ex_norm, Ey_norm]. *)
Definition normalized_field (charges : list charge) (x_range y_range : R * R)
    (grid_density : nat)
  : result (list (list np_float) * list (list np_float)) :=
  '(Ex, Ey) ← plot_electric_field charges x_range y_range grid_density;
  Ok (normalize Ex Ey).

(** [markersize=abs(q)*10] *)
Definition marker_size (q : R) : R := Rabs q * 10.

Definition skip_b64 (r_squared : float) : bool := PrimFloat.eqb r_squared 0%float.

Definition get_electric_field_b64 : list B64.charge -> float -> float -> B64.vec :=
  B64.evaluate skip_b64.

End FirstTry.

(** ** "secondTry.py": the guard is [r_squared < epsilon**2] *)

Module SecondTry.

Definition epsilon : R := 1e-6.

Definition skip (r_squared : R) : bool :=
  if Rlt_dec r_squared (epsilon ^ 2) then true else false.

Definition get_electric_field : list charge -> R -> R -> vec :=
  evaluate skip.

Definition get_electric_field_checked : list charge -> R -> R -> result vec :=
  evaluate_checked skip.

(** [create_plot], up to the arrays [Ex, Ey]. *)
Definition create_plot
  : list charge -> R * R -> R * R -> nat -> result (array2 * array2) :=
  sample get_electric_field_checked.

(** [create_plot], up to [E_magnitude], the colour of the streamlines. *)
Definition field_magnitude (charges : list charge) (x_range y_range : R * R)
    (grid_density : nat) : result array2 :=
  '(Ex, Ey) ← create_plot charges x_range y_range grid_density;
  Ok (E_magnitude Ex Ey).

(** [markersize=max(6, min(20, abs(q) * 5))] *)
Definition marker_size (q : R) : R := Rmax 6 (Rmin 20 (Rabs q * 5)).

(** The list [st.session_state.charges] starts as. *)
Definition default_charges : list charge := [(1, -2, 0); (-1, 2, 0)].

(** The main area of the page for the slider values [grid_density] and
    [plot_range]: a warning ([None]) when there is no charge, otherwise
    [create_plot] over [(-plot_range, plot_range)] on both axes. *)
Definition main_area (charges : list charge) (grid_density plot_range : nat)
  : option (result (array2 * array2)) :=
  match charges with
  | [] => None
  | _ :: _ =>
      let x_range := (- INR plot_range, INR plot_range) in
      let y_range := (- INR plot_range, INR plot_range) in
      Some (create_plot charges x_range y_range grid_density)
  end.

Definition epsilon_b64 : float := 0x1.0c6f7a0b5ed8dp-20%float.

Definition skip_b64 (r_squared : float) : bool :=
  PrimFloat.ltb r_squared (PrimFloat.mul epsilon_b64 epsilon_b64).

Definition get_electric_field_b64 : list B64.charge -> float -> float -> B64.vec :=
  B64.evaluate skip_b64.

End SecondTry.

(** The arrays the double loop is meant to compute: entry [[i, j]] is
    [g] at the point [(x[j], y[i])]. *)
Definition sampled (g : R -> R -> R) (x y : list R) : array2 :=
  map (fun yi => map (fun xj => g xj yi) x) y.

(** [sampled] for entries of any type. *)
Definition grid_of {A : Type} (g : R -> R -> A) (x y : list R) : list (list A) :=
  map (fun yi => map (fun xj => g xj yi) x) y.

(** The charge [c] with its magnitude multiplied by [k]. *)
Definition scale_charge (k : R) (c : charge) : charge :=
  let '(q, qx, qy) := c in (k * q, qx, qy).

(** The charge [c] moved by [(a, b)]. *)
Definition shift_charge (a b : R) (c : charge) : charge :=
  let '(q, qx, qy) := c in (q, qx + a, qy + b).

(** The sum of [|q|] over a charge list. *)
Definition total_abs_charge (charges : list charge) : R :=
  fold_right (fun c acc => Rabs (fst (fst c)) + acc) 0 charges.

(** The sum of a list of vectors. *)
Definition vsum (l : list vec) : vec := fold_right vadd (0, 0) l.

(** [a] is an array of shape [sh]. *)
Definition has_shape (a : array2) (sh : nat * nat) : Prop :=
  shape a = sh /\ rectangular a (fst sh) (snd sh).

(** [l] holds [n] evenly spaced values from [lo] to [hi], both
    included. *)
Definition evenly_spaced (l : list R) (lo hi : R) (n : nat) : Prop :=
  length l = n
  /\ l !! 0%nat = Some lo
  /\ l !! (n - 1)%nat = Some hi
  /\ forall k : nat, (S k < n)%nat ->
       exists u v, l !! k = Some u /\ l !! S k = Some v
                   /\ v - u = (hi - lo) / INR (n - 1).

(** Squared distance from the charge [c] to the point [(x, y)]: the
    value [r_squared] takes in the iteration for [c]. *)
Definition r_squared_of (c : charge) (x y : R) : R :=
  let '(_, qx, qy) := c in (x - qx) ^ 2 + (y - qy) ^ 2.

(** * Properties *)

(** ** Vectors *)

Lemma vec_eq (u v : vec) : fst u = fst v -> snd u = snd v -> u = v.
Proof. destruct u, v; simpl; intros -> ->; reflexivity. Qed.

Lemma vadd_zero_l (u : vec) : vadd (0, 0) u = u.
Proof. apply vec_eq; simpl; lra. Qed.

Lemma vadd_zero_r (u : vec) : vadd u (0, 0) = u.
Proof. apply vec_eq; simpl; lra. Qed.

Lemma vadd_assoc (u v w : vec) : vadd (vadd u v) w = vadd u (vadd v w).
Proof. apply vec_eq; simpl; lra. Qed.

(** ** Checked operations *)

Lemma bind_Ok {A B : Type} (a : A) (k : A -> result B) : Ok a ≫= k = k a.
Proof. reflexivity. Qed.

Lemma div_checked_ok (a b : R) : b <> 0 -> div_checked a b = Ok (a / b).
Proof.
  intros Hb; unfold div_checked.
  destruct (Req_dec_T b 0); [contradiction | reflexivity].
Qed.

Lemma sqrt_checked_ok (a : R) : 0 <= a -> sqrt_checked a = Ok (sqrt a).
Proof.
  intros Ha; unfold sqrt_checked.
  destruct (Rlt_dec a 0); [exfalso; lra | reflexivity].
Qed.

(** ** The loop, for any guard *)

Section EvaluatorFacts.

Variable skip : R -> bool.
Variables x y : R.

Lemma r_squared_nonneg (c : charge) : 0 <= r_squared_of c x y.
Proof.
  destruct c as [[q qx] qy]; unfold r_squared_of.
  apply Rplus_le_le_0_compat; apply pow2_ge_0.
Qed.

Lemma accumulate_term (acc : vec) (c : charge) :
  accumulate skip x y acc c = vadd acc (term skip x y c).
Proof.
  unfold accumulate, term.
  destruct (contribution skip x y c); [reflexivity | now rewrite vadd_zero_r].
Qed.

Lemma fold_accumulate (charges : list charge) (acc : vec) :
  fold_left (accumulate skip x y) charges acc
  = vadd acc (evaluate skip charges x y).
Proof.
  unfold evaluate.
  revert acc; induction charges as [|c rest IH]; intros acc; simpl.
  - now rewrite vadd_zero_r.
  - rewrite IH, (IH (accumulate _ _ _ _ _)), !accumulate_term.
    now rewrite vadd_zero_l, vadd_assoc.
Qed.

Lemma evaluate_nil : evaluate skip [] x y = (0, 0).
Proof. reflexivity. Qed.

Lemma evaluate_cons (c : charge) (rest : list charge) :
  evaluate skip (c :: rest) x y
  = vadd (term skip x y c) (evaluate skip rest x y).
Proof.
  unfold evaluate at 1; simpl.
  now rewrite fold_accumulate, accumulate_term, vadd_zero_l.
Qed.

Lemma evaluate_app (l1 l2 : list charge) :
  evaluate skip (l1 ++ l2) x y
  = vadd (evaluate skip l1 x y) (evaluate skip l2 x y).
Proof.
  unfold evaluate at 1.
  now rewrite fold_left_app, fold_accumulate.
Qed.

Lemma evaluate_single (c : charge) :
  evaluate skip [c] x y = term skip x y c.
Proof. now rewrite evaluate_cons, evaluate_nil, vadd_zero_r. Qed.

Lemma contribution_unfold (q qx qy : R) :
  contribution skip x y (q, qx, qy)
  = if skip ((x - qx) ^ 2 + (y - qy) ^ 2) then None
    else Some (q / ((x - qx) ^ 2 + (y - qy) ^ 2)
                 * ((x - qx) / sqrt ((x - qx) ^ 2 + (y - qy) ^ 2)),
               q / ((x - qx) ^ 2 + (y - qy) ^ 2)
                 * ((y - qy) / sqrt ((x - qx) ^ 2 + (y - qy) ^ 2))).
Proof. reflexivity. Qed.


(** The guard fires at [r_squared = 0]: then no division is by zero
    and no square root is of a negative number. *)
Hypothesis skip_zero : skip 0 = true.

Lemma not_skipped_pos (r2 : R) : 0 <= r2 -> skip r2 = false -> 0 < r2.
Proof.
  intros [Hlt | <-] Hs; [exact Hlt | congruence].
Qed.

Lemma contribution_checked_ok (c : charge) :
  contribution_checked skip x y c = Ok (contribution skip x y c).
Proof.
  pose proof (r_squared_nonneg c) as Hnn.
  destruct c as [[q qx] qy]; unfold r_squared_of in Hnn.
  unfold contribution_checked; rewrite contribution_unfold.
  destruct (skip ((x - qx) ^ 2 + (y - qy) ^ 2)) eqn:Hs; [reflexivity|].
  pose proof (not_skipped_pos _ Hnn Hs) as Hpos.
  pose proof (sqrt_lt_R0 _ Hpos) as Hr.
  rewrite sqrt_checked_ok, bind_Ok by lra.
  rewrite !div_checked_ok by lra.
  reflexivity.
Qed.

Lemma loop_checked_ok (charges : list charge) (acc : vec) :
  loop_checked skip x y charges acc
  = Ok (fold_left (accumulate skip x y) charges acc).
Proof.
  revert acc; induction charges as [|c rest IH]; intros acc; simpl.
  - reflexivity.
  - now rewrite contribution_checked_ok, bind_Ok, IH.
Qed.

Lemma evaluate_checked_ok (charges : list charge) :
  evaluate_checked skip charges x y = Ok (evaluate skip charges x y).
Proof. apply loop_checked_ok. Qed.

End EvaluatorFacts.

(** ** The two guards *)

Lemma first_try_skip_true (r2 : R) : FirstTry.skip r2 = true <-> r2 = 0.
Proof.
  unfold FirstTry.skip; destruct (Req_dec_T r2 0); split; congruence.
Qed.

Lemma first_try_skip_false (r2 : R) : FirstTry.skip r2 = false <-> r2 <> 0.
Proof.
  unfold FirstTry.skip; destruct (Req_dec_T r2 0); split; congruence.
Qed.

Lemma second_try_skip_true (r2 : R) :
  SecondTry.skip r2 = true <-> r2 < SecondTry.epsilon ^ 2.
Proof.
  unfold SecondTry.skip; destruct (Rlt_dec r2 _); split;
    intros; (congruence || lra).
Qed.

Lemma second_try_skip_false (r2 : R) :
  SecondTry.skip r2 = false <-> SecondTry.epsilon ^ 2 <= r2.
Proof.
  unfold SecondTry.skip; destruct (Rlt_dec r2 _); split;
    intros; (congruence || lra).
Qed.

Lemma epsilon_pos : 0 < SecondTry.epsilon.
Proof. unfold SecondTry.epsilon; lra. Qed.

Lemma epsilon_sq_pos : 0 < SecondTry.epsilon ^ 2.
Proof. unfold SecondTry.epsilon; lra. Qed.

Lemma first_try_skip_zero : FirstTry.skip 0 = true.
Proof. now apply first_try_skip_true. Qed.

Lemma second_try_skip_zero : SecondTry.skip 0 = true.
Proof. apply second_try_skip_true, epsilon_sq_pos. Qed.

(** ** A single charge *)

Lemma Rpower_three_halves (r2 : R) : 0 < r2 -> Rpower r2 (3 / 2) = r2 * sqrt r2.
Proof.
  intros Hpos.
  replace (3 / 2) with (1 + / 2) by lra.
  now rewrite Rpower_plus, Rpower_1, Rpower_sqrt.
Qed.

Section SingleCharge.

Variable skip : R -> bool.
Variables q qx qy x y : R.

Local Abbreviation r2 := ((x - qx) ^ 2 + (y - qy) ^ 2).

Hypothesis not_skipped : skip r2 = false.
Hypothesis r2_pos : 0 < r2.

Lemma single_charge_field :
  evaluate skip [(q, qx, qy)] x y
  = (q / r2 * ((x - qx) / sqrt r2), q / r2 * ((y - qy) / sqrt r2)).
Proof.
  rewrite evaluate_single; unfold term; rewrite contribution_unfold.
  now rewrite not_skipped.
Qed.

Lemma single_charge_radial :
  evaluate skip [(q, qx, qy)] x y
  = vscale (q / Rpower r2 (3 / 2)) (x - qx, y - qy).
Proof.
  pose proof (sqrt_lt_R0 _ r2_pos) as Hr.
  rewrite single_charge_field, Rpower_three_halves by exact r2_pos.
  apply vec_eq; unfold vscale; cbn [fst snd]; field; lra.
Qed.

Lemma single_charge_magnitude :
  magnitude (evaluate skip [(q, qx, qy)] x y) = Rabs q / r2.
Proof.
  pose proof (sqrt_lt_R0 _ r2_pos) as Hr.
  pose proof (sqrt_sqrt r2 (Rlt_le _ _ r2_pos)) as Hrr.
  rewrite single_charge_field; unfold magnitude; cbn [fst snd].
  replace ((q / r2 * ((x - qx) / sqrt r2)) ^ 2
           + (q / r2 * ((y - qy) / sqrt r2)) ^ 2)
    with (Rsqr (q / r2)).
  - rewrite sqrt_Rsqr_abs. unfold Rdiv.
    rewrite Rabs_mult, (Rabs_pos_eq (/ r2)); [reflexivity|].
    left; now apply Rinv_0_lt_compat.
  - unfold Rsqr.
    transitivity (q / r2 * (q / r2) * (r2 / (sqrt r2 * sqrt r2))).
    + rewrite Hrr. field; lra.
    + field; lra.
Qed.

End SingleCharge.

(** ** Binary64 addition from zero

    [Ex] and [Ey] start at 0, so every component returned is [0 + v] or
    a sum that starts so; adding 0 to it, or absorbing [0 + w] as [w],
    changes nothing, for infinities and [nan] as well. *)

Lemma SF64add_zero_l (y : spec_float) :
  SF64add (S754_zero false) y
  = match y with S754_zero _ => S754_zero false | _ => y end.
Proof. destruct y as [[] | [] | | [] m e]; reflexivity. Qed.

Lemma b64_zero_plus_absorbs (a b : float) :
  ((0 + a) + (0 + b) = (0 + a) + b)%float.
Proof.
  apply Prim2SF_inj. rewrite !add_spec.
  change (Prim2SF 0%float) with (S754_zero false).
  rewrite !SF64add_zero_l.
  destruct (Prim2SF a) as [[]|[]| |[] ma ea], (Prim2SF b) as [[]|[]| |[] mb eb];
    reflexivity.
Qed.

Lemma b64_zero_plus_idem (b : float) : (0 + (0 + b) = 0 + b)%float.
Proof.
  apply Prim2SF_inj. rewrite !add_spec.
  change (Prim2SF 0%float) with (S754_zero false).
  rewrite !SF64add_zero_l.
  destruct (Prim2SF b) as [[]|[]| |[] mb eb]; reflexivity.
Qed.

Lemma b64_zero_plus_zero_r (a : float) : ((0 + a) + 0 = 0 + a)%float.
Proof.
  apply Prim2SF_inj. rewrite !add_spec.
  change (Prim2SF 0%float) with (S754_zero false).
  rewrite !SF64add_zero_l.
  destruct (Prim2SF a) as [[]|[]| |[] ma ea]; reflexivity.
Qed.

(** When the guard does not fire, [r_squared] is not a zero. *)
Lemma first_try_b64_divisor (r_squared : float) :
  FirstTry.skip_b64 r_squared = false -> is_zero r_squared = false.
Proof. intros H; exact H. Qed.

Lemma second_try_b64_divisor (r_squared : float) :
  SecondTry.skip_b64 r_squared = false -> is_zero r_squared = false.
Proof.
  unfold SecondTry.skip_b64, is_zero.
  rewrite FloatAxioms.ltb_spec, FloatAxioms.eqb_spec.
  change (Prim2SF 0%float) with (S754_zero false).
  set (t := Prim2SF (SecondTry.epsilon_b64 * SecondTry.epsilon_b64)%float).
  vm_compute in t; subst t.
  destruct (Prim2SF r_squared) as [[]|[]| |[] m e]; intros H;
    try reflexivity; discriminate H.
Qed.

Lemma b64_evaluate_pair (skip : float -> bool) (A B : B64.charge) (x y : float) :
  B64.evaluate skip [A; B] x y
  = B64.vadd (B64.evaluate skip [A] x y) (B64.evaluate skip [B] x y).
Proof.
  unfold B64.evaluate; cbn [fold_left]; unfold B64.accumulate.
  destruct (B64.contribution skip x y A) as [[a1 a2]|],
           (B64.contribution skip x y B) as [[b1 b2]|];
    unfold B64.vadd; cbn [fst snd].
  - now rewrite !b64_zero_plus_absorbs.
  - now rewrite !b64_zero_plus_zero_r.
  - now rewrite !b64_zero_plus_idem.
  - reflexivity.
Qed.

(** ** get_electric_field *)

(** C1. Superposition linearity: for two charges [A], [B] and a point
    not coincident with either (squared distance outside the guard of
    the file at hand: non-zero in "first try.py", at least [epsilon**2]
    in "secondTry.py"), the field of [[A; B]] is the component-wise sum
    of the field of [[A]] and the field of [[B]]. In binary64 the two
    sides are the same floats as well, for every two charges and every
    point, infinities and [nan] included. *)
Theorem superposition_linearity (A B : charge) (x y : R) :
  (r_squared_of A x y <> 0 -> r_squared_of B x y <> 0 ->
   FirstTry.get_electric_field [A; B] x y
   = vadd (FirstTry.get_electric_field [A] x y)
          (FirstTry.get_electric_field [B] x y))
  /\ (SecondTry.epsilon ^ 2 <= r_squared_of A x y ->
      SecondTry.epsilon ^ 2 <= r_squared_of B x y ->
      SecondTry.get_electric_field [A; B] x y
      = vadd (SecondTry.get_electric_field [A] x y)
             (SecondTry.get_electric_field [B] x y))
  /\ (forall (A' B' : B64.charge) (x' y' : float),
        FirstTry.get_electric_field_b64 [A'; B'] x' y'
        = B64.vadd (FirstTry.get_electric_field_b64 [A'] x' y')
                   (FirstTry.get_electric_field_b64 [B'] x' y')
        /\ SecondTry.get_electric_field_b64 [A'; B'] x' y'
           = B64.vadd (SecondTry.get_electric_field_b64 [A'] x' y')
                      (SecondTry.get_electric_field_b64 [B'] x' y')).
Proof.
  split; [|split].
  - intros _ _; apply (evaluate_app _ x y [A] [B]).
  - intros _ _; apply (evaluate_app _ x y [A] [B]).
  - intros A' B' x' y'; split; apply b64_evaluate_pair.
Qed.

Lemma superposition_linearity_witness :
  FirstTry.get_electric_field [(1, -2, 0); (-1, 2, 0)] 0 0
  = vadd (FirstTry.get_electric_field [(1, -2, 0)] 0 0)
         (FirstTry.get_electric_field [(-1, 2, 0)] 0 0)
  /\ SecondTry.get_electric_field [(1, -2, 0); (-1, 2, 0)] 0 0
     = vadd (SecondTry.get_electric_field [(1, -2, 0)] 0 0)
            (SecondTry.get_electric_field [(-1, 2, 0)] 0 0).
Proof.
  destruct (superposition_linearity (1, -2, 0) (-1, 2, 0) 0 0) as (H1 & H2 & _).
  split.
  - apply H1; unfold r_squared_of; lra.
  - apply H2; unfold r_squared_of, SecondTry.epsilon; lra.
Defined.

(** ** A zero charge in binary64 *)




Section ZeroChargeB64.

Variable skip : float -> bool.
Hypothesis skip_not_zero : forall r2, skip r2 = false -> is_zero r2 = false.


End ZeroChargeB64.




(** C10. Radial direction: for a single charge [(q, qx, qy)] and a
    point whose squared distance [r2] from it is outside the guard, the
    field is [q / r2^(3/2)] times the displacement [(x - qx, y - qy)];
    the factor is positive for [q > 0] and negative for [q < 0]. *)
Theorem radial_direction (q qx qy x y : R) :
  let r2 := r_squared_of (q, qx, qy) x y in
  let k := q / Rpower r2 (3 / 2) in
  (r2 <> 0 ->
   FirstTry.get_electric_field [(q, qx, qy)] x y = vscale k (x - qx, y - qy))
  /\ (SecondTry.epsilon ^ 2 <= r2 ->
      SecondTry.get_electric_field [(q, qx, qy)] x y
      = vscale k (x - qx, y - qy))
  /\ (r2 <> 0 -> (0 < q -> 0 < k) /\ (q < 0 -> k < 0)).
Proof.
  intros r2 k.
  pose proof (r_squared_nonneg x y (q, qx, qy)) as Hnn; fold r2 in Hnn.
  pose proof epsilon_sq_pos as Heps.
  split; [|split].
  - intros Hne. apply single_charge_radial.
    + now apply first_try_skip_false.
    + unfold r2, r_squared_of in *; lra.
  - intros Hge. apply single_charge_radial.
    + now apply second_try_skip_false.
    + unfold r2, r_squared_of in *; lra.
  - intros _.
    assert (Hinv : 0 < / Rpower r2 (3 / 2))
      by (apply Rinv_0_lt_compat; unfold Rpower; apply exp_pos).
    unfold k, Rdiv; split; intros Hq; nra.
Qed.

Lemma radial_direction_witness :
  FirstTry.get_electric_field [(1, 0, 0)] 3 4
  = vscale (1 / Rpower (r_squared_of (1, 0, 0) 3 4) (3 / 2)) (3 - 0, 4 - 0)
  /\ SecondTry.get_electric_field [(1, 0, 0)] 3 4
     = vscale (1 / Rpower (r_squared_of (1, 0, 0) 3 4) (3 / 2)) (3 - 0, 4 - 0)
  /\ 0 < 1 / Rpower (r_squared_of (1, 0, 0) 3 4) (3 / 2).
Proof.
  destruct (radial_direction 1 0 0 3 4) as (H1 & H2 & H3).
  repeat split.
  - apply H1; unfold r_squared_of; lra.
  - apply H2; unfold r_squared_of, SecondTry.epsilon; lra.
  - apply H3; [unfold r_squared_of|]; lra.
Defined.

Lemma sqrt_pos_inv (a : R) : 0 < sqrt a -> 0 < a.
Proof.
  intros H. apply sqrt_lt_0_alt. now rewrite sqrt_0.
Qed.

Lemma magnitude_vopp (u : vec) : magnitude (vopp u) = magnitude u.
Proof.
  unfold magnitude, vopp; cbn [fst snd]. f_equal; ring.
Qed.

Lemma evaluate_origin_charge_opp (skip : R -> bool) (q x y : R) :
  evaluate skip [(q, 0, 0)] (- x) (- y) = vopp (evaluate skip [(q, 0, 0)] x y).
Proof.
  rewrite !evaluate_single; unfold term; rewrite !contribution_unfold.
  replace ((- x - 0) ^ 2 + (- y - 0) ^ 2) with ((x - 0) ^ 2 + (y - 0) ^ 2)
    by ring.
  destruct (skip _).
  - apply vec_eq; unfold vopp; cbn [fst snd]; ring.
  - apply vec_eq; unfold vopp, Rdiv; cbn [fst snd]; ring.
Qed.

(** C3, as amended. Inverse-square falloff, in exact arithmetic: for a
    single charge [(q, 0, 0)] and a point at distance [r] from the
    origin, [r > 0] in "first try.py" and [r > epsilon] in
    "secondTry.py", the magnitude of the field is [|q| / r^2]. *)
Theorem inverse_square_falloff (q x y : R) :
  let r := sqrt (x ^ 2 + y ^ 2) in
  (0 < r ->
   magnitude (FirstTry.get_electric_field [(q, 0, 0)] x y) = Rabs q / r ^ 2)
  /\ (SecondTry.epsilon < r ->
      magnitude (SecondTry.get_electric_field [(q, 0, 0)] x y)
      = Rabs q / r ^ 2).
Proof.
  intros r.
  assert (Hr2 : 0 < r -> 0 < (x - 0) ^ 2 + (y - 0) ^ 2 /\
                         r ^ 2 = (x - 0) ^ 2 + (y - 0) ^ 2).
  { intros Hr. apply sqrt_pos_inv in Hr as Hpos.
    unfold r; rewrite pow2_sqrt by lra. split; [|ring].
    replace ((x - 0) ^ 2 + (y - 0) ^ 2) with (x ^ 2 + y ^ 2) by ring.
    exact Hpos. }
  pose proof epsilon_pos as Heps.
  split; intros Hr.
  - destruct (Hr2 Hr) as [Hpos ->].
    apply single_charge_magnitude; [|exact Hpos].
    apply first_try_skip_false; lra.
  - destruct (Hr2 ltac:(lra)) as [Hpos Heq].
    rewrite Heq. apply single_charge_magnitude; [|exact Hpos].
    apply second_try_skip_false. rewrite <- Heq. nra.
Qed.

Lemma inverse_square_falloff_witness :
  magnitude (FirstTry.get_electric_field [(2, 0, 0)] 3 4)
  = Rabs 2 / sqrt (3 ^ 2 + 4 ^ 2) ^ 2
  /\ magnitude (SecondTry.get_electric_field [(2, 0, 0)] 3 4)
     = Rabs 2 / sqrt (3 ^ 2 + 4 ^ 2) ^ 2.
Proof.
  assert (H5 : sqrt (3 ^ 2 + 4 ^ 2) = 5).
  { replace (3 ^ 2 + 4 ^ 2) with (5 * 5) by lra. apply sqrt_square; lra. }
  destruct (inverse_square_falloff 2 3 4) as [H1 H2].
  split.
  - apply H1. rewrite H5; lra.
  - apply H2. rewrite H5; unfold SecondTry.epsilon; lra.
Defined.

(** C3, as stated, fails in binary64: the computed magnitude need not
    be within any tolerance of [|q| / r^2]. For the finite charge
    [2^1023] seen from [(0.5, 0)], at distance [0.5 > epsilon], both
    files return [(inf, nan)], whose magnitude is [nan]. For the charge
    [2^600] seen from [(1, 0)] the field [(2^600, 0)] is finite and is
    [|q| / r^2], but [sqrt(Ex**2 + Ey**2)] overflows to [inf]. *)
Lemma inverse_square_falloff_overflow :
  B64.is_finite 0x1p1023 = true
  /\ PrimFloat.ltb SecondTry.epsilon_b64 0.5 = true
  /\ FirstTry.get_electric_field_b64 [(0x1p1023, 0, 0)%float] 0.5%float 0%float
     = (infinity, nan)
  /\ SecondTry.get_electric_field_b64 [(0x1p1023, 0, 0)%float] 0.5%float 0%float
     = (infinity, nan)
  /\ B64.magnitude (infinity, nan) = nan
  /\ FirstTry.get_electric_field_b64 [(0x1p600, 0, 0)%float] 1%float 0%float
     = (0x1p600, 0)%float
  /\ SecondTry.get_electric_field_b64 [(0x1p600, 0, 0)%float] 1%float 0%float
     = (0x1p600, 0)%float
  /\ B64.magnitude (0x1p600, 0)%float = infinity.
Proof.
  repeat split; vm_compute; reflexivity.
Qed.

(** C5. Sign symmetry: for a single charge [(q, 0, 0)] and a point
    [(x, y)] outside the guard, the field at [(-x, -y)] is the opposite
    of the field at [(x, y)], component-wise, and has the same
    magnitude. *)
Theorem sign_symmetry (q x y : R) :
  (x ^ 2 + y ^ 2 <> 0 ->
   FirstTry.get_electric_field [(q, 0, 0)] (- x) (- y)
   = vopp (FirstTry.get_electric_field [(q, 0, 0)] x y)
   /\ magnitude (FirstTry.get_electric_field [(q, 0, 0)] (- x) (- y))
      = magnitude (FirstTry.get_electric_field [(q, 0, 0)] x y))
  /\ (SecondTry.epsilon ^ 2 <= x ^ 2 + y ^ 2 ->
      SecondTry.get_electric_field [(q, 0, 0)] (- x) (- y)
      = vopp (SecondTry.get_electric_field [(q, 0, 0)] x y)
      /\ magnitude (SecondTry.get_electric_field [(q, 0, 0)] (- x) (- y))
         = magnitude (SecondTry.get_electric_field [(q, 0, 0)] x y)).
Proof.
  unfold FirstTry.get_electric_field, SecondTry.get_electric_field.
  split; intros _; rewrite evaluate_origin_charge_opp;
    (split; [reflexivity | apply magnitude_vopp]).
Qed.

Lemma sign_symmetry_witness :
  FirstTry.get_electric_field [(1, 0, 0)] (- 3) (- 4)
  = vopp (FirstTry.get_electric_field [(1, 0, 0)] 3 4)
  /\ SecondTry.get_electric_field [(1, 0, 0)] (- 3) (- 4)
     = vopp (SecondTry.get_electric_field [(1, 0, 0)] 3 4).
Proof.
  destruct (sign_symmetry 1 3 4) as [H1 H2].
  split.
  - apply H1; lra.
  - apply H2; unfold SecondTry.epsilon; lra.
Defined.






(** ** Concrete evaluations *)

Lemma sqrt_of_square (a r2 : R) : 0 <= a -> r2 = a * a -> sqrt r2 = a.
Proof. intros Ha ->. now apply sqrt_square. Qed.

Lemma dipole_field (skip : R -> bool) :
  skip 4 = false ->
  evaluate skip [(1, -2, 0); (-1, 2, 0)] 0 0 = (1 / 2, 0).
Proof.
  intros Hs.
  change [(1, -2, 0); (-1, 2, 0)] with ([(1, -2, 0)] ++ [(-1, 2, 0)]).
  rewrite evaluate_app, !evaluate_single; unfold term.
  rewrite !contribution_unfold.
  replace ((0 - -2) ^ 2 + (0 - 0) ^ 2) with 4 by lra.
  replace ((0 - 2) ^ 2 + (0 - 0) ^ 2) with 4 by lra.
  rewrite Hs, (sqrt_of_square 2 4) by lra.
  apply vec_eq; unfold vadd; cbn [fst snd]; lra.
Qed.

Lemma coincident_charge_field (skip : R -> bool) (q x y : R) :
  skip 0 = true -> evaluate skip [(q, x, y)] x y = (0, 0).
Proof.
  intros Hs.
  rewrite evaluate_single; unfold term; rewrite contribution_unfold.
  replace ((x - x) ^ 2 + (y - y) ^ 2) with 0 by ring.
  now rewrite Hs.
Qed.

(** C2, as amended. Singularity safety: the field of [[(1, 0, 0)]] at
    [(0, 0)] is exactly [(0, 0)], in exact arithmetic and in binary64,
    because the iteration for the sole charge is skipped; and for every
    charge list and point no division is by zero and no square root is
    of a negative number: the checked evaluator raises nothing and
    returns what the evaluator returns. When the guard fires the
    iteration ends before the divisions; when it does not, [r_squared]
    is not zero, in binary64 either. *)
Theorem singularity_safety :
  (FirstTry.get_electric_field [(1, 0, 0)] 0 0 = (0, 0)
   /\ SecondTry.get_electric_field [(1, 0, 0)] 0 0 = (0, 0)
   /\ FirstTry.get_electric_field_b64 [(1, 0, 0)%float] 0%float 0%float
      = (0, 0)%float
   /\ SecondTry.get_electric_field_b64 [(1, 0, 0)%float] 0%float 0%float
      = (0, 0)%float)
  /\ (forall (charges : list charge) (x y : R),
        FirstTry.get_electric_field_checked charges x y
        = Ok (FirstTry.get_electric_field charges x y)
        /\ SecondTry.get_electric_field_checked charges x y
           = Ok (SecondTry.get_electric_field charges x y))
  /\ (forall (c : charge) (x y : R),
        (FirstTry.skip (r_squared_of c x y) = true ->
         contribution_checked FirstTry.skip x y c = Ok None)
        /\ (SecondTry.skip (r_squared_of c x y) = true ->
            contribution_checked SecondTry.skip x y c = Ok None))
  /\ (forall r_squared : float,
        (FirstTry.skip_b64 r_squared = false -> is_zero r_squared = false)
        /\ (SecondTry.skip_b64 r_squared = false ->
            is_zero r_squared = false)).
Proof.
  split; [|split; [|split]].
  - split; [|split; [|split]].
    + apply coincident_charge_field, first_try_skip_zero.
    + apply coincident_charge_field, second_try_skip_zero.
    + vm_compute; reflexivity.
    + vm_compute; reflexivity.
  - intros charges x y; split.
    + apply evaluate_checked_ok, first_try_skip_zero.
    + apply evaluate_checked_ok, second_try_skip_zero.
  - intros [[q qx] qy] x y; unfold contribution_checked, r_squared_of.
    split; intros ->; reflexivity.
  - intros r_squared; split.
    + apply first_try_b64_divisor.
    + apply second_try_b64_divisor.
Qed.

Lemma singularity_safety_witness :
  contribution_checked FirstTry.skip 0 0 (1, 0, 0) = Ok None
  /\ contribution_checked SecondTry.skip 0 0 (1, 0, 0) = Ok None.
Proof.
  destruct singularity_safety as (_ & _ & H & _).
  destruct (H (1, 0, 0) 0 0) as [H1 H2].
  split.
  - apply H1, first_try_skip_true; unfold r_squared_of; lra.
  - apply H2, second_try_skip_true.
    unfold r_squared_of, SecondTry.epsilon; lra.
Defined.

(** C2, as stated, fails in binary64: a finite charge and a finite point
    can give a field that is not finite. In "first try.py" the unit
    charge at the origin seen from [(2^-530, 0)] passes the guard
    ([r_squared = 2^-1060] is not zero) and [1 / r_squared] overflows;
    in "secondTry.py" the charge [2^1023] at the origin seen from
    [(0.5, 0)] overflows in [q / r_squared]. *)
Lemma singularity_safety_not_finite :
  FirstTry.get_electric_field_b64 [(1, 0, 0)%float] 0x1p-530%float 0%float
  = (infinity, nan)
  /\ SecondTry.get_electric_field_b64 [(0x1p1023, 0, 0)%float] 0.5%float 0%float
     = (infinity, nan)
  /\ B64.is_finite infinity = false
  /\ B64.is_finite nan = false
  /\ B64.is_finite 0x1p-530 = true
  /\ B64.is_finite 0x1p1023 = true.
Proof.
  repeat split; vm_compute; reflexivity.
Qed.

(** C4, as amended. The dipole [[(1, -2, 0); (-1, 2, 0)]] seen from
    [(0, 0)]: the field is exactly [(0.5, 0)], in both files, in exact
    arithmetic and in binary64. It points in the +x direction, away
    from the positive charge at [x = -2] and toward the negative charge
    at [x = 2]. *)
Theorem dipole_scenario :
  FirstTry.get_electric_field [(1, -2, 0); (-1, 2, 0)] 0 0 = (1 / 2, 0)
  /\ SecondTry.get_electric_field [(1, -2, 0); (-1, 2, 0)] 0 0 = (1 / 2, 0)
  /\ FirstTry.get_electric_field_b64 [(1, -2, 0); (-1, 2, 0)]%float 0%float 0%float
     = (0.5, 0)%float
  /\ SecondTry.get_electric_field_b64 [(1, -2, 0); (-1, 2, 0)]%float 0%float 0%float
     = (0.5, 0)%float.
Proof.
  split; [|split; [|split]].
  - apply dipole_field, first_try_skip_false; lra.
  - apply dipole_field, second_try_skip_false.
    unfold SecondTry.epsilon; lra.
  - vm_compute; reflexivity.
  - vm_compute; reflexivity.
Qed.

(** C4, as stated, fails: [Ex] is not negative and is at distance 1 from
    -0.5; in binary64 [Ex] is not -0.5 either. *)
Lemma dipole_scenario_not_minus_x :
  ~ fst (FirstTry.get_electric_field [(1, -2, 0); (-1, 2, 0)] 0 0) < 0
  /\ Rabs (fst (FirstTry.get_electric_field [(1, -2, 0); (-1, 2, 0)] 0 0)
           - (- 0.5)) = 1
  /\ ~ fst (SecondTry.get_electric_field [(1, -2, 0); (-1, 2, 0)] 0 0) < 0
  /\ Rabs (fst (SecondTry.get_electric_field [(1, -2, 0); (-1, 2, 0)] 0 0)
           - (- 0.5)) = 1
  /\ PrimFloat.eqb
       (fst (FirstTry.get_electric_field_b64
               [(1, -2, 0); (-1, 2, 0)]%float 0%float 0%float))
       (-0.5)%float = false.
Proof.
  assert (H1 : FirstTry.get_electric_field [(1, -2, 0); (-1, 2, 0)] 0 0
               = (1 / 2, 0))
    by (apply dipole_field, first_try_skip_false; lra).
  assert (H2 : SecondTry.get_electric_field [(1, -2, 0); (-1, 2, 0)] 0 0
               = (1 / 2, 0))
    by (apply dipole_field, second_try_skip_false;
        unfold SecondTry.epsilon; lra).
  rewrite H1, H2; cbn [fst].
  replace (1 / 2 - - 0.5) with 1 by lra. rewrite Rabs_R1.
  repeat split; try lra.
Qed.

(** ** Loops *)

Lemma for_each_seq_invariant {S : Type} (P : nat -> S -> Prop)
    (body : nat -> S -> result S) (n len start : nat) (s : S) :
  (start + len = n)%nat ->
  (forall i s, (i < n)%nat -> P i s ->
               exists s', body i s = Ok s' /\ P (Datatypes.S i) s') ->
  P start s ->
  exists s', for_each body (seq start len) s = Ok s' /\ P n s'.
Proof.
  intros Hn Hstep; revert start s Hn.
  induction len as [|len IH]; intros start s Hn HP; simpl.
  - exists s. split; [reflexivity|]. now replace n with start by lia.
  - destruct (Hstep start s ltac:(lia) HP) as (s1 & Hbody & HP1).
    rewrite Hbody, bind_Ok. apply IH; [lia | exact HP1].
Qed.

Lemma for_each_invariant {S : Type} (P : nat -> S -> Prop)
    (body : nat -> S -> result S) (n : nat) (s : S) :
  P 0%nat s ->
  (forall i s, (i < n)%nat -> P i s ->
               exists s', body i s = Ok s' /\ P (Datatypes.S i) s') ->
  exists s', for_each body (range n) s = Ok s' /\ P n s'.
Proof.
  intros HP Hstep. now apply (for_each_seq_invariant P body n n 0%nat).
Qed.

(** ** linspace *)

Lemma lookup_map {A B : Type} (f : A -> B) (l : list A) (i : nat) (a : A) :
  l !! i = Some a -> map f l !! i = Some (f a).
Proof.
  intros Hl. pose proof (list_lookup_fmap f l i) as Hmap.
  rewrite Hl in Hmap. exact Hmap.
Qed.

Lemma linspace_length (start stop : R) (num : nat) :
  length (linspace start stop num) = num.
Proof.
  unfold linspace. destruct (1 <? num)%nat.
  - now rewrite length_insert, length_map, length_seq.
  - now rewrite length_map, length_seq.
Qed.

Lemma linspace_lookup (start stop : R) (num k : nat) :
  (2 <= num)%nat -> (k < num)%nat ->
  linspace start stop num !! k
  = Some (start + INR k * ((stop - start) / INR (num - 1))).
Proof.
  intros Hnum Hk. unfold linspace.
  assert (Hd : INR (num - 1) <> 0) by (apply not_0_INR; lia).
  destruct (Nat.ltb_spec 1%nat num) as [_|]; [|lia].
  destruct (Nat.eq_dec k (num - 1)%nat) as [->|Hne].
  - rewrite list_lookup_insert_eq by (rewrite length_map, length_seq; lia).
    f_equal; field; exact Hd.
  - rewrite list_lookup_insert_ne by congruence.
    rewrite (lookup_map _ _ _ _ (lookup_seq_lt 0 num k Hk)).
    simpl; f_equal; ring.
Qed.

Lemma linspace_endpoints (start stop : R) (num : nat) :
  (2 <= num)%nat ->
  linspace start stop num !! 0%nat = Some start
  /\ linspace start stop num !! (num - 1)%nat = Some stop.
Proof.
  intros Hnum.
  assert (Hd : INR (num - 1) <> 0) by (apply not_0_INR; lia).
  rewrite !linspace_lookup by lia. split; f_equal.
  - simpl; ring.
  - field; exact Hd.
Qed.

Lemma linspace_spacing (start stop : R) (num k : nat) :
  (2 <= num)%nat -> (S k < num)%nat ->
  exists u v, linspace start stop num !! k = Some u
              /\ linspace start stop num !! S k = Some v
              /\ v - u = (stop - start) / INR (num - 1).
Proof.
  intros Hnum Hk.
  eexists _, _. rewrite !linspace_lookup by lia.
  split; [reflexivity|]. split; [reflexivity|].
  rewrite S_INR; ring.
Qed.

(** ** Arrays *)

Lemma sampled_length (g : R -> R -> R) (x y : list R) :
  length (sampled g x y) = length y.
Proof. apply length_map. Qed.

Lemma sampled_rectangular (g : R -> R -> R) (x y : list R) :
  rectangular (sampled g x y) (length y) (length x).
Proof.
  split; [apply sampled_length|].
  unfold sampled. apply List.Forall_forall. intros row Hin.
  apply in_map_iff in Hin as (yi & <- & _). apply length_map.
Qed.

Lemma sampled_shape (g : R -> R -> R) (x y : list R) :
  y <> [] -> shape (sampled g x y) = (length y, length x).
Proof.
  intros Hy. destruct y as [|yi y]; [contradiction|].
  unfold shape, sampled; cbn [map length]. now rewrite !length_map.
Qed.

Lemma sampled_zero (x y : list R) :
  sampled (fun _ _ => 0) x y = zeros (length y, length x).
Proof.
  unfold sampled, zeros; cbn [fst snd].
  assert (Hrow : map (fun _ : R => 0) x = replicate (length x) 0)
    by (induction x as [|a x IH]; simpl; [|rewrite IH]; reflexivity).
  rewrite Hrow.
  induction y as [|b y IH]; simpl; [|rewrite IH]; reflexivity.
Qed.

Lemma sampled_lookup (g : R -> R -> R) (x y : list R) (i j : nat) (xj yi : R) :
  x !! j = Some xj -> y !! i = Some yi ->
  load (sampled g x y) i j = Ok (g xj yi).
Proof.
  intros Hx Hy. unfold load, sampled.
  now rewrite (lookup_map _ _ _ _ Hy), (lookup_map _ _ _ _ Hx).
Qed.

Lemma insert_fill {A : Type} (done : list A) (k : nat) (z v : A) :
  <[length done := v]> (done ++ replicate (S k) z)
  = (done ++ [v]) ++ replicate k z.
Proof.
  rewrite insert_app_r_alt, Nat.sub_diag by lia.
  now rewrite <- app_assoc.
Qed.

Lemma store_middle (pre post : array2) (row : list R) (i j : nat) (v : R) :
  length pre = i -> (j < length row)%nat ->
  store (pre ++ row :: post) i j v = Ok (pre ++ <[j := v]> row :: post).
Proof.
  intros Hi Hj. unfold store.
  rewrite list_lookup_middle by congruence.
  destruct (Nat.ltb_spec j (length row)) as [_|]; [|lia].
  rewrite insert_app_r_alt by lia.
  now replace (i - length pre)%nat with 0%nat by lia.
Qed.

(** ** The double loop *)

Section SamplerFacts.

Variable field : list charge -> R -> R -> result vec.
Variable f : list charge -> R -> R -> vec.
Hypothesis field_ok : forall charges x y, field charges x y = Ok (f charges x y).

Variable charges : list charge.
Variables xs ys : list R.

Local Abbreviation gx := (fun xj yi : R => fst (f charges xj yi)).
Local Abbreviation gy := (fun xj yi : R => snd (f charges xj yi)).
Local Abbreviation X := (fst (meshgrid xs ys)).
Local Abbreviation Y := (snd (meshgrid xs ys)).
Local Abbreviation m := (length xs).

Lemma meshgrid_load (i j : nat) (xj yi : R) :
  xs !! j = Some xj -> ys !! i = Some yi ->
  load X i j = Ok xj /\ load Y i j = Ok yi.
Proof.
  intros Hx Hy. split.
  - unfold load, X, meshgrid; cbn [fst].
    now rewrite (lookup_map _ _ _ _ Hy), Hx.
  - apply (sampled_lookup (fun _ b => b) xs ys i j xj yi Hx Hy).
Qed.

(** The loop over [j], for the row [i]: it turns the row of zeros into
    the row of field components. *)
Lemma fill_row (i : nat) (yi : R) (preX postX preY postY : array2) :
  ys !! i = Some yi -> length preX = i -> length preY = i ->
  for_each (fill_cell field charges X Y i) (range m)
    (preX ++ replicate m 0 :: postX, preY ++ replicate m 0 :: postY)
  = Ok (preX ++ map (fun xj => fst (f charges xj yi)) xs :: postX,
        preY ++ map (fun xj => snd (f charges xj yi)) xs :: postY).
Proof.
  intros Hyi HpX HpY.
  pose (Q := fun (j : nat) (st : array2 * array2) =>
    st = (preX ++ (map (fun xj => fst (f charges xj yi)) (take j xs)
                     ++ replicate (m - j) 0) :: postX,
          preY ++ (map (fun xj => snd (f charges xj yi)) (take j xs)
                     ++ replicate (m - j) 0) :: postY)).
  destruct (for_each_invariant Q (fill_cell field charges X Y i) m
              (preX ++ replicate m 0 :: postX, preY ++ replicate m 0 :: postY))
    as (st & Hrun & HQ).
  - unfold Q. now rewrite take_0, Nat.sub_0_r.
  - intros j st Hj ->.
    destruct (lookup_lt_is_Some_2 xs j Hj) as [xj Hxj].
    destruct (meshgrid_load i j xj yi Hxj Hyi) as [HX HY].
    eexists; split.
    + unfold fill_cell. rewrite HX, bind_Ok, HY, bind_Ok, field_ok, bind_Ok.
      rewrite !store_middle, !bind_Ok;
        [reflexivity | | | |];
        rewrite ?length_app, ?length_map, ?length_take, ?length_replicate;
        lia.
    + unfold Q. rewrite (take_S_r xs j xj Hxj), !map_app; cbn [map].
      replace (m - j)%nat with (S (m - S j)) by lia.
      assert (Hlen : forall g : R -> R,
                length (map g (take j xs)) = j)
        by (intros g; rewrite length_map, length_take; lia).
      pose proof (insert_fill (map (fun xj => fst (f charges xj yi)) (take j xs))
                    (m - S j) 0 (fst (f charges xj yi))) as Hx.
      pose proof (insert_fill (map (fun xj => snd (f charges xj yi)) (take j xs))
                    (m - S j) 0 (snd (f charges xj yi))) as Hy.
      rewrite Hlen in Hx, Hy. now rewrite <- Hx, <- Hy.
  - rewrite Hrun. unfold Q in HQ; rewrite HQ.
    now rewrite take_ge, Nat.sub_diag, !app_nil_r by (lia).
Qed.

(** The loop over [i]: the arrays of zeros become the sampled field. *)
Lemma fill_rows :
  for_each (fun i => for_each (fill_cell field charges X Y i) (range m))
    (range (length ys))
    (zeros (length ys, m), zeros (length ys, m))
  = Ok (sampled gx xs ys, sampled gy xs ys).
Proof.
  set (n := length ys).
  pose (P := fun (i : nat) (st : array2 * array2) =>
    st = (sampled gx xs (take i ys) ++ replicate (n - i) (replicate m 0),
          sampled gy xs (take i ys) ++ replicate (n - i) (replicate m 0))).
  destruct (for_each_invariant P
              (fun i => for_each (fill_cell field charges X Y i) (range m))
              n (zeros (n, m), zeros (n, m)))
    as (st & Hrun & HP).
  - unfold P, zeros; cbn [fst snd]. now rewrite take_0, Nat.sub_0_r.
  - intros i st Hi ->.
    destruct (lookup_lt_is_Some_2 ys i Hi) as [yi Hyi].
    replace (n - i)%nat with (S (n - S i)) by lia; cbn [replicate].
    eexists; split.
    + apply (fill_row i yi); [exact Hyi | |];
        rewrite sampled_length, length_take; lia.
    + unfold P. rewrite (take_S_r ys i yi Hyi).
      unfold sampled; rewrite !map_app; cbn [map].
      now rewrite <- !app_assoc.
  - rewrite Hrun. unfold P in HP; rewrite HP.
    now rewrite take_ge, Nat.sub_diag, !app_nil_r by lia.
Qed.

Lemma meshgrid_shape :
  ys <> [] -> shape X = (length ys, m) /\ shape Y = (length ys, m).
Proof.
  intros Hys. split.
  - destruct ys as [|yi rest]; [contradiction|].
    unfold shape, X, meshgrid; cbn [fst map length].
    now rewrite length_map.
  - apply (sampled_shape (fun _ b => b) xs ys Hys).
Qed.

End SamplerFacts.

(** ** The sampling step *)

Lemma linspace_evenly_spaced (start stop : R) (num : nat) :
  (2 <= num)%nat -> evenly_spaced (linspace start stop num) start stop num.
Proof.
  intros Hnum. destruct (linspace_endpoints start stop num Hnum) as [H0 H1].
  repeat split; [apply linspace_length | exact H0 | exact H1 |].
  intros k Hk. now apply linspace_spacing.
Qed.

Lemma sampled_has_shape (g : R -> R -> R) (x y : list R) (n : nat) :
  (0 < n)%nat -> length x = n -> length y = n ->
  has_shape (sampled g x y) (n, n).
Proof.
  intros Hn Hx Hy. split.
  - rewrite sampled_shape, Hx, Hy; [reflexivity|].
    intros ->; simpl in Hy; lia.
  - cbn [fst snd]. rewrite <- Hx at 2. rewrite <- Hy.
    apply sampled_rectangular.
Qed.

Lemma sample_ok (field : list charge -> R -> R -> result vec)
    (f : list charge -> R -> R -> vec) (charges : list charge)
    (x_range y_range : R * R) (grid_density : nat) :
  (forall charges x y, field charges x y = Ok (f charges x y)) ->
  sample field charges x_range y_range grid_density
  = Ok (sampled (fun xj yi => fst (f charges xj yi))
          (linspace (fst x_range) (snd x_range) grid_density)
          (linspace (fst y_range) (snd y_range) grid_density),
        sampled (fun xj yi => snd (f charges xj yi))
          (linspace (fst x_range) (snd x_range) grid_density)
          (linspace (fst y_range) (snd y_range) grid_density)).
Proof.
  intros Hf. unfold sample.
  set (xs := linspace (fst x_range) (snd x_range) grid_density).
  set (ys := linspace (fst y_range) (snd y_range) grid_density).
  assert (Hxs : length xs = grid_density) by apply linspace_length.
  assert (Hys : length ys = grid_density) by apply linspace_length.
  destruct ys as [|y0 rest] eqn:Eys.
  - reflexivity.
  - rewrite <- Eys in *.
    assert (Hne : ys <> []) by (rewrite Eys; discriminate).
    destruct (meshgrid_shape xs ys Hne) as [HX HY].
    unfold meshgrid in *; cbn [fst snd] in *. rewrite HX, HY; cbn [fst snd].
    apply (fill_rows field f Hf charges xs ys).
Qed.

Lemma zeros_has_shape (n : nat) : (0 < n)%nat -> has_shape (zeros (n, n)) (n, n).
Proof.
  intros Hn.
  assert (Hz : zeros (n, n)
               = sampled (fun _ _ => 0) (replicate n 0) (replicate n 0))
    by now rewrite sampled_zero, !length_replicate.
  rewrite Hz.
  apply sampled_has_shape; [exact Hn | |]; apply length_replicate.
Qed.

Lemma zeros_load (n i j : nat) :
  (i < n)%nat -> (j < n)%nat -> load (zeros (n, n)) i j = Ok 0.
Proof.
  intros Hi Hj. unfold load, zeros; cbn [fst snd].
  now rewrite !lookup_replicate_2 by lia.
Qed.

(** C6. Grid shape invariant: for every charge list, every pair of
    ranges and every density of at least 2, the sampling step builds
    [density] evenly spaced coordinates on each axis, both endpoints
    included, raises nothing and returns arrays [Ex] and [Ey] of shape
    [(density, density)], holding the field components at the grid
    nodes; so it does in both files. *)
Theorem grid_shape_invariant (charges : list charge) (x_range y_range : R * R)
    (density : nat) :
  (2 <= density)%nat ->
  let x := linspace (fst x_range) (snd x_range) density in
  let y := linspace (fst y_range) (snd y_range) density in
  evenly_spaced x (fst x_range) (snd x_range) density
  /\ evenly_spaced y (fst y_range) (snd y_range) density
  /\ (exists Ex Ey : array2,
        FirstTry.plot_electric_field charges x_range y_range density
        = Ok (Ex, Ey)
        /\ has_shape Ex (density, density)
        /\ has_shape Ey (density, density)
        /\ Ex = sampled (fun xj yi =>
                  fst (FirstTry.get_electric_field charges xj yi)) x y
        /\ Ey = sampled (fun xj yi =>
                  snd (FirstTry.get_electric_field charges xj yi)) x y)
  /\ (exists Ex Ey : array2,
        SecondTry.create_plot charges x_range y_range density = Ok (Ex, Ey)
        /\ has_shape Ex (density, density)
        /\ has_shape Ey (density, density)
        /\ Ex = sampled (fun xj yi =>
                  fst (SecondTry.get_electric_field charges xj yi)) x y
        /\ Ey = sampled (fun xj yi =>
                  snd (SecondTry.get_electric_field charges xj yi)) x y).
Proof.
  intros Hd x y.
  split; [now apply linspace_evenly_spaced|].
  split; [now apply linspace_evenly_spaced|].
  split; eexists _, _.
  - split; [apply sample_ok|].
    + intros cs a b. apply evaluate_checked_ok, first_try_skip_zero.
    + repeat split; apply sampled_has_shape || idtac;
        try apply linspace_length; lia.
  - split; [apply sample_ok|].
    + intros cs a b. apply evaluate_checked_ok, second_try_skip_zero.
    + repeat split; apply sampled_has_shape || idtac;
        try apply linspace_length; lia.
Qed.

Lemma grid_shape_invariant_witness :
  (exists Ex Ey : array2,
     FirstTry.plot_electric_field [(1, -2, 0); (-1, 2, 0)] (-10, 10) (-10, 10) 25
     = Ok (Ex, Ey)
     /\ has_shape Ex (25, 25)%nat /\ has_shape Ey (25, 25)%nat)
  /\ (exists Ex Ey : array2,
        SecondTry.create_plot [(1, -2, 0); (-1, 2, 0)] (-10, 10) (-10, 10) 25
        = Ok (Ex, Ey)
        /\ has_shape Ex (25, 25)%nat /\ has_shape Ey (25, 25)%nat).
Proof.
  destruct (grid_shape_invariant [(1, -2, 0); (-1, 2, 0)] (-10, 10) (-10, 10) 25
              ltac:(lia))
    as (_ & _ & (Ex1 & Ey1 & H1 & Hx1 & Hy1 & _)
               & (Ex2 & Ey2 & H2 & Hx2 & Hy2 & _)).
  split; [exists Ex1, Ey1 | exists Ex2, Ey2];
    (split; [assumption | split; assumption]).
Defined.

(** C7. Zero-charge grid: for the empty charge list, any ranges and any
    density of at least 2, the sampling step raises nothing and returns
    [Ex] and [Ey] all zero, of shape [(density, density)]; and the field
    of the empty list is [(0, 0)] at every point, in exact arithmetic
    and in binary64. *)
Theorem zero_charge_grid (x_range y_range : R * R) (density : nat) :
  (2 <= density)%nat ->
  FirstTry.plot_electric_field [] x_range y_range density
  = Ok (zeros (density, density), zeros (density, density))
  /\ SecondTry.create_plot [] x_range y_range density
     = Ok (zeros (density, density), zeros (density, density))
  /\ has_shape (zeros (density, density)) (density, density)
  /\ (forall i j : nat, (i < density)%nat -> (j < density)%nat ->
        load (zeros (density, density)) i j = Ok 0)
  /\ (forall x y : R,
        FirstTry.get_electric_field [] x y = (0, 0)
        /\ SecondTry.get_electric_field [] x y = (0, 0)
        /\ FirstTry.get_electric_field_checked [] x y = Ok (0, 0)
        /\ SecondTry.get_electric_field_checked [] x y = Ok (0, 0))
  /\ (forall x y : float,
        FirstTry.get_electric_field_b64 [] x y = (0, 0)%float
        /\ SecondTry.get_electric_field_b64 [] x y = (0, 0)%float).
Proof.
  intros Hd.
  assert (Hzero : forall lo hi lo' hi' : R,
            sampled (fun _ _ => 0) (linspace lo hi density)
              (linspace lo' hi' density)
            = zeros (density, density))
    by (intros; now rewrite sampled_zero, !linspace_length).
  split; [|split; [|split; [|split; [|split]]]].
  - unfold FirstTry.plot_electric_field.
    rewrite (sample_ok _ FirstTry.get_electric_field)
      by (intros; apply evaluate_checked_ok, first_try_skip_zero).
    change (fun xj yi : R => fst (FirstTry.get_electric_field [] xj yi))
      with (fun _ _ : R => 0).
    change (fun xj yi : R => snd (FirstTry.get_electric_field [] xj yi))
      with (fun _ _ : R => 0).
    now rewrite Hzero.
  - unfold SecondTry.create_plot.
    rewrite (sample_ok _ SecondTry.get_electric_field)
      by (intros; apply evaluate_checked_ok, second_try_skip_zero).
    change (fun xj yi : R => fst (SecondTry.get_electric_field [] xj yi))
      with (fun _ _ : R => 0).
    change (fun xj yi : R => snd (SecondTry.get_electric_field [] xj yi))
      with (fun _ _ : R => 0).
    now rewrite Hzero.
  - apply zeros_has_shape; lia.
  - intros i j. apply zeros_load.
  - intros x y. repeat split.
  - intros x y. split; reflexivity.
Qed.

Lemma zero_charge_grid_witness :
  FirstTry.plot_electric_field [] (-10, 10) (-10, 10) 25
  = Ok (zeros (25, 25)%nat, zeros (25, 25)%nat)
  /\ SecondTry.create_plot [] (-10, 10) (-10, 10) 25
     = Ok (zeros (25, 25)%nat, zeros (25, 25)%nat).
Proof.
  destruct (zero_charge_grid (-10, 10) (-10, 10) 25 ltac:(lia))
    as (H1 & H2 & _).
  split; assumption.
Defined.

(** * Further properties *)

(** ** The field as a sum over the charges *)

Lemma vadd_comm (u v : vec) : vadd u v = vadd v u.
Proof. apply vec_eq; simpl; lra. Qed.

Section SumOverCharges.

Variable skip : R -> bool.
Variables x y : R.

Lemma evaluate_as_sum (charges : list charge) :
  evaluate skip charges x y = vsum (map (term skip x y) charges).
Proof.
  induction charges as [|c rest IH]; [reflexivity|].
  rewrite evaluate_cons, IH. reflexivity.
Qed.

Lemma evaluate_permutation (l l' : list charge) :
  Permutation l l' -> evaluate skip l x y = evaluate skip l' x y.
Proof.
  induction 1 as [|c l l' _ IH|c d l|l l' l'' _ IH1 _ IH2].
  - reflexivity.
  - now rewrite !evaluate_cons, IH.
  - rewrite !evaluate_cons, <- !vadd_assoc.
    now rewrite (vadd_comm (term skip x y d)).
  - now rewrite IH1.
Qed.

Lemma term_scale (k : R) (c : charge) :
  term skip x y (scale_charge k c) = vscale k (term skip x y c).
Proof.
  destruct c as [[q qx] qy]; unfold term, scale_charge.
  rewrite !contribution_unfold.
  destruct (skip ((x - qx) ^ 2 + (y - qy) ^ 2)).
  - apply vec_eq; unfold vscale; cbn [fst snd]; ring.
  - apply vec_eq; unfold vscale, Rdiv; cbn [fst snd]; ring.
Qed.

Lemma evaluate_scale (k : R) (charges : list charge) :
  evaluate skip (map (scale_charge k) charges) x y
  = vscale k (evaluate skip charges x y).
Proof.
  induction charges as [|c rest IH].
  - apply vec_eq; unfold vscale; simpl; ring.
  - cbn [map]. rewrite !evaluate_cons, IH, term_scale.
    apply vec_eq; unfold vscale, vadd; cbn [fst snd]; ring.
Qed.

Lemma term_coincident (q : R) : skip 0 = true -> term skip x y (q, x, y) = (0, 0).
Proof.
  intros Hs. unfold term; rewrite contribution_unfold.
  replace ((x - x) ^ 2 + (y - y) ^ 2) with 0 by ring.
  now rewrite Hs.
Qed.

End SumOverCharges.

Lemma term_shift (skip : R -> bool) (a b x y : R) (c : charge) :
  term skip (x + a) (y + b) (shift_charge a b c) = term skip x y c.
Proof.
  destruct c as [[q qx] qy]; unfold term, shift_charge.
  rewrite !contribution_unfold.
  replace (x + a - (qx + a)) with (x - qx) by ring.
  replace (y + b - (qy + b)) with (y - qy) by ring.
  reflexivity.
Qed.

Lemma evaluate_shift (skip : R -> bool) (a b x y : R) (charges : list charge) :
  evaluate skip (map (shift_charge a b) charges) (x + a) (y + b)
  = evaluate skip charges x y.
Proof.
  induction charges as [|c rest IH]; [reflexivity|].
  cbn [map]. now rewrite !evaluate_cons, IH, term_shift.
Qed.

Lemma evaluate_drop_coincident (skip : R -> bool) (q x y : R)
    (l1 l2 : list charge) :
  skip 0 = true ->
  evaluate skip (l1 ++ (q, x, y) :: l2) x y = evaluate skip (l1 ++ l2) x y.
Proof.
  intros Hs.
  now rewrite !evaluate_app, evaluate_cons, term_coincident, vadd_zero_l.
Qed.

(** X1. Order independence: the field of a charge list does not depend
    on the order of the charges, in exact arithmetic, in both files. *)
Theorem field_order_independent (charges charges' : list charge) (x y : R) :
  Permutation charges charges' ->
  FirstTry.get_electric_field charges x y
  = FirstTry.get_electric_field charges' x y
  /\ SecondTry.get_electric_field charges x y
     = SecondTry.get_electric_field charges' x y.
Proof.
  intros Hperm; split; now apply evaluate_permutation.
Qed.

Lemma field_order_independent_witness :
  FirstTry.get_electric_field [(1, -2, 0); (-1, 2, 0)] 1 1
  = FirstTry.get_electric_field [(-1, 2, 0); (1, -2, 0)] 1 1
  /\ SecondTry.get_electric_field [(1, -2, 0); (-1, 2, 0)] 1 1
     = SecondTry.get_electric_field [(-1, 2, 0); (1, -2, 0)] 1 1.
Proof.
  apply (field_order_independent [(1, -2, 0); (-1, 2, 0)]
           [(-1, 2, 0); (1, -2, 0)] 1 1).
  apply perm_swap.
Defined.

(** X2. Superposition over a whole configuration: the field of a charge
    list is the vector sum of the fields of its charges taken one at a
    time, and the field of a concatenation is the sum of the fields of
    its parts; in exact arithmetic, in both files. *)
Theorem field_is_sum_of_single_fields (charges more : list charge) (x y : R) :
  FirstTry.get_electric_field charges x y
  = vsum (map (fun c => FirstTry.get_electric_field [c] x y) charges)
  /\ SecondTry.get_electric_field charges x y
     = vsum (map (fun c => SecondTry.get_electric_field [c] x y) charges)
  /\ FirstTry.get_electric_field (charges ++ more) x y
     = vadd (FirstTry.get_electric_field charges x y)
            (FirstTry.get_electric_field more x y)
  /\ SecondTry.get_electric_field (charges ++ more) x y
     = vadd (SecondTry.get_electric_field charges x y)
            (SecondTry.get_electric_field more x y).
Proof.
  unfold FirstTry.get_electric_field, SecondTry.get_electric_field.
  repeat split; try apply evaluate_app;
    rewrite evaluate_as_sum; f_equal; apply map_ext; intros c;
    now rewrite evaluate_single.
Qed.

(** X3. The field is homogeneous in the charge magnitudes: multiplying
    every [q] by [k] multiplies the field by [k]; with [k = -1],
    reversing the sign of every charge reverses the field. *)
Theorem field_scales_with_charge (k : R) (charges : list charge) (x y : R) :
  FirstTry.get_electric_field (map (scale_charge k) charges) x y
  = vscale k (FirstTry.get_electric_field charges x y)
  /\ SecondTry.get_electric_field (map (scale_charge k) charges) x y
     = vscale k (SecondTry.get_electric_field charges x y)
  /\ FirstTry.get_electric_field (map (scale_charge (-1)) charges) x y
     = vopp (FirstTry.get_electric_field charges x y)
  /\ SecondTry.get_electric_field (map (scale_charge (-1)) charges) x y
     = vopp (SecondTry.get_electric_field charges x y).
Proof.
  unfold FirstTry.get_electric_field, SecondTry.get_electric_field.
  repeat split; rewrite evaluate_scale; try reflexivity;
    apply vec_eq; unfold vscale, vopp; cbn [fst snd]; ring.
Qed.

(** X4. Translation invariance: moving every charge and the query point
    by the same vector leaves the field unchanged. *)
Theorem field_translation_invariant (a b : R) (charges : list charge) (x y : R) :
  FirstTry.get_electric_field (map (shift_charge a b) charges) (x + a) (y + b)
  = FirstTry.get_electric_field charges x y
  /\ SecondTry.get_electric_field (map (shift_charge a b) charges) (x + a) (y + b)
     = SecondTry.get_electric_field charges x y.
Proof. split; apply evaluate_shift. Qed.

(** X6. No self-field: a charge sitting exactly at the query point adds
    nothing, wherever it stands in the list and whatever its magnitude,
    so the field at a charge's own position is the field of the other
    charges. *)
Theorem coincident_charge_excluded (q x y : R) (before after : list charge) :
  FirstTry.get_electric_field (before ++ (q, x, y) :: after) x y
  = FirstTry.get_electric_field (before ++ after) x y
  /\ SecondTry.get_electric_field (before ++ (q, x, y) :: after) x y
     = SecondTry.get_electric_field (before ++ after) x y.
Proof.
  split; apply evaluate_drop_coincident.
  - apply first_try_skip_zero.
  - apply second_try_skip_zero.
Qed.

(** ** The two guards compared *)

Lemma term_second_try (x y : R) (c : charge) :
  term SecondTry.skip x y c
  = if SecondTry.skip (r_squared_of c x y) then (0, 0)
    else term FirstTry.skip x y c.
Proof.
  destruct c as [[q qx] qy]; unfold term, r_squared_of.
  rewrite !contribution_unfold.
  destruct (SecondTry.skip ((x - qx) ^ 2 + (y - qy) ^ 2)) eqn:Hs;
    [reflexivity|].
  apply second_try_skip_false in Hs. pose proof epsilon_sq_pos as Heps.
  rewrite (proj2 (first_try_skip_false _)) by lra.
  reflexivity.
Qed.

Lemma second_try_as_first_try (charges : list charge) (x y : R) :
  evaluate SecondTry.skip charges x y
  = evaluate FirstTry.skip
      (List.filter (fun c => negb (SecondTry.skip (r_squared_of c x y))) charges)
      x y.
Proof.
  induction charges as [|c rest IH]; [reflexivity|].
  cbn [List.filter]. rewrite evaluate_cons, term_second_try, IH.
  destruct (SecondTry.skip (r_squared_of c x y)); cbn [negb].
  - apply vadd_zero_l.
  - now rewrite evaluate_cons.
Qed.

(** X5. The two files compared: the field of "secondTry.py" is the
    field of "first try.py" for the charges at squared distance at least
    [epsilon**2] from the point; so the two files return the same field
    at every point that is outside the epsilon ball of every charge. *)
Theorem guards_agree_outside_epsilon_ball (charges : list charge) (x y : R) :
  SecondTry.get_electric_field charges x y
  = FirstTry.get_electric_field
      (List.filter (fun c => negb (SecondTry.skip (r_squared_of c x y))) charges)
      x y
  /\ (Forall (fun c => SecondTry.epsilon ^ 2 <= r_squared_of c x y) charges ->
      SecondTry.get_electric_field charges x y
      = FirstTry.get_electric_field charges x y).
Proof.
  split; [apply second_try_as_first_try|].
  intros Hall.
  unfold SecondTry.get_electric_field; rewrite second_try_as_first_try.
  unfold FirstTry.get_electric_field; f_equal.
  induction Hall as [|c rest Hc _ IH]; [reflexivity|].
  cbn [List.filter].
  now rewrite (proj2 (second_try_skip_false _) Hc), IH.
Qed.

Lemma guards_agree_outside_epsilon_ball_witness :
  SecondTry.get_electric_field [(1, -2, 0); (-1, 2, 0)] 0 0
  = FirstTry.get_electric_field [(1, -2, 0); (-1, 2, 0)] 0 0.
Proof.
  apply (guards_agree_outside_epsilon_ball [(1, -2, 0); (-1, 2, 0)] 0 0).
  repeat constructor; unfold r_squared_of, SecondTry.epsilon; lra.
Defined.

(** ** A bound from the epsilon guard *)

Lemma abs_le_sqrt_sum (a b : R) : Rabs a <= sqrt (a ^ 2 + b ^ 2).
Proof.
  rewrite <- (sqrt_Rsqr_abs a). apply sqrt_le_1_alt.
  unfold Rsqr. nra.
Qed.

Lemma second_try_term_bound (x y : R) (c : charge) :
  Rabs (fst (term SecondTry.skip x y c))
    <= Rabs (fst (fst c)) / SecondTry.epsilon ^ 2
  /\ Rabs (snd (term SecondTry.skip x y c))
       <= Rabs (fst (fst c)) / SecondTry.epsilon ^ 2.
Proof.
  pose proof epsilon_sq_pos as Heps.
  pose proof (Rinv_0_lt_compat _ Heps) as Hieps.
  destruct c as [[q qx] qy]; unfold term; rewrite contribution_unfold.
  cbn [fst snd]. pose proof (Rabs_pos q) as Hq.
  destruct (SecondTry.skip ((x - qx) ^ 2 + (y - qy) ^ 2)) eqn:Hs; cbn [fst snd].
  - rewrite Rabs_R0. unfold Rdiv. split; nra.
  - apply second_try_skip_false in Hs.
    assert (Hx : Rabs (x - qx) <= sqrt ((x - qx) ^ 2 + (y - qy) ^ 2))
      by apply abs_le_sqrt_sum.
    assert (Hy : Rabs (y - qy) <= sqrt ((x - qx) ^ 2 + (y - qy) ^ 2))
      by (rewrite Rplus_comm; apply abs_le_sqrt_sum).
    set (r2 := (x - qx) ^ 2 + (y - qy) ^ 2) in *. clearbody r2.
    assert (Hr2 : 0 < r2) by lra.
    pose proof (sqrt_lt_R0 _ Hr2) as Hr.
    assert (Hinv : 0 < / r2 <= / SecondTry.epsilon ^ 2)
      by (split; [now apply Rinv_0_lt_compat | now apply Rinv_le_contravar]).
    assert (Hunit : forall d, Rabs d <= sqrt r2 -> 0 <= Rabs (d / sqrt r2) <= 1).
    { intros d Hd. unfold Rdiv. rewrite Rabs_mult, (Rabs_pos_eq (/ sqrt r2))
        by (left; now apply Rinv_0_lt_compat).
      pose proof (Rabs_pos d). pose proof (Rinv_0_lt_compat _ Hr).
      split; [nra|].
      apply (Rmult_le_reg_r (sqrt r2)); [exact Hr|].
      rewrite Rmult_assoc, Rinv_l by lra. lra. }
    apply Hunit in Hx, Hy.
    assert (Hq2 : Rabs (q / r2) = Rabs q * / r2)
      by (unfold Rdiv; now rewrite Rabs_mult, (Rabs_pos_eq (/ r2)) by lra).
    rewrite !Rabs_mult, Hq2.
    set (tx := Rabs ((x - qx) / sqrt r2)) in *.
    set (ty := Rabs ((y - qy) / sqrt r2)) in *.
    clearbody tx ty. unfold Rdiv.
    assert (H1 : Rabs q * / r2 <= Rabs q * / SecondTry.epsilon ^ 2)
      by (apply Rmult_le_compat_l; lra).
    assert (H2 : 0 <= Rabs q * / r2)
      by (apply Rmult_le_pos; lra).
    set (w := Rabs q * / r2) in *. clearbody w.
    split; nra.
Qed.

(** X7. In "secondTry.py" the field is bounded: each component is at
    most the sum of the [|q|] divided by [epsilon**2], that is [10^12]
    times the sum of the [|q|], at every point. *)
Theorem second_try_field_bounded (charges : list charge) (x y : R) :
  Rabs (fst (SecondTry.get_electric_field charges x y))
    <= total_abs_charge charges * 10 ^ 12
  /\ Rabs (snd (SecondTry.get_electric_field charges x y))
       <= total_abs_charge charges * 10 ^ 12.
Proof.
  assert (Heps : forall t, t / SecondTry.epsilon ^ 2 = t * 10 ^ 12)
    by (intros t; unfold SecondTry.epsilon; lra).
  unfold SecondTry.get_electric_field.
  induction charges as [|c rest [IHx IHy]].
  - cbn [evaluate fold_left total_abs_charge fold_right fst snd].
    rewrite Rabs_R0; lra.
  - rewrite evaluate_cons.
    destruct (second_try_term_bound x y c) as [Hx Hy].
    rewrite Heps in Hx, Hy.
    unfold vadd; cbn [fst snd total_abs_charge fold_right].
    fold (total_abs_charge rest).
    split; (eapply Rle_trans; [apply Rabs_triang|]); lra.
Qed.

(** ** Markers *)

(** X8. Charge markers of "secondTry.py": the size is clamped to
    [[6, 20]], depends on [|q|] only, does not decrease when [|q|]
    grows, and is [5 |q|] in between; the marker is red exactly for
    [q > 0], so a zero charge is drawn blue, with the smallest size. *)
Theorem marker_size_clamped (q q' : R) :
  6 <= SecondTry.marker_size q <= 20
  /\ SecondTry.marker_size (- q) = SecondTry.marker_size q
  /\ (Rabs q <= Rabs q' -> SecondTry.marker_size q <= SecondTry.marker_size q')
  /\ (6 <= Rabs q * 5 <= 20 -> SecondTry.marker_size q = Rabs q * 5)
  /\ (marker_color q = red <-> 0 < q)
  /\ SecondTry.marker_size 0 = 6.
Proof.
  unfold SecondTry.marker_size.
  assert (Hclamp : forall a b, a <= b ->
            6 <= Rmax 6 (Rmin 20 a) <= 20
            /\ Rmax 6 (Rmin 20 a) <= Rmax 6 (Rmin 20 b)
            /\ (6 <= a <= 20 -> Rmax 6 (Rmin 20 a) = a)).
  { intros a b Hab. unfold Rmax, Rmin.
    repeat destruct (Rle_dec _ _); repeat split; intros; lra. }
  split; [apply (Hclamp _ _ (Rle_refl _))|].
  split; [now rewrite Rabs_Ropp|].
  split; [intros Hle; apply Hclamp; lra|].
  split; [apply (Hclamp _ _ (Rle_refl _))|].
  split.
  - unfold marker_color. destruct (Rlt_dec 0 q); split; intros H;
      first [assumption | reflexivity | discriminate H | contradiction].
  - rewrite Rabs_R0. unfold Rmax, Rmin.
    repeat destruct (Rle_dec _ _); lra.
Qed.

Lemma marker_size_clamped_witness :
  SecondTry.marker_size 1 <= SecondTry.marker_size (- 3)
  /\ SecondTry.marker_size 2 = Rabs 2 * 5.
Proof.
  destruct (marker_size_clamped 1 (- 3)) as (_ & _ & Hmono & _).
  destruct (marker_size_clamped 2 0) as (_ & _ & _ & Hmid & _).
  split.
  - apply Hmono. unfold Rabs; repeat destruct (Rcase_abs _); lra.
  - apply Hmid. unfold Rabs; destruct (Rcase_abs _); lra.
Defined.

(** ** The magnitude array and the normalised field *)

Lemma zip_with_map {A B C D : Type} (h : A -> B -> C) (g1 : D -> A)
    (g2 : D -> B) (l : list D) :
  zip_with h (map g1 l) (map g2 l) = map (fun d => h (g1 d) (g2 d)) l.
Proof. induction l as [|d l IH]; simpl; [|rewrite IH]; reflexivity. Qed.

Lemma zip_with_grid {A B C : Type} (h : A -> B -> C) (g1 : R -> R -> A)
    (g2 : R -> R -> B) (x y : list R) :
  zip_with (zip_with h) (grid_of g1 x y) (grid_of g2 x y)
  = grid_of (fun xj yi => h (g1 xj yi) (g2 xj yi)) x y.
Proof.
  unfold grid_of. rewrite zip_with_map.
  apply map_ext; intros yi. apply zip_with_map.
Qed.

Lemma E_magnitude_sampled (f : R -> R -> vec) (x y : list R) :
  E_magnitude (sampled (fun xj yi => fst (f xj yi)) x y)
    (sampled (fun xj yi => snd (f xj yi)) x y)
  = sampled (fun xj yi => magnitude (f xj yi)) x y.
Proof.
  exact (zip_with_grid (fun ex ey => sqrt (ex ^ 2 + ey ^ 2))
           (fun xj yi => fst (f xj yi)) (fun xj yi => snd (f xj yi)) x y).
Qed.

Lemma sampled_Forall (P : R -> Prop) (g : R -> R -> R) (x y : list R) :
  (forall xj yi, P (g xj yi)) -> Forall (Forall P) (sampled g x y).
Proof.
  intros HP. unfold sampled.
  apply List.Forall_forall; intros row Hrow.
  apply in_map_iff in Hrow as (yi & <- & _).
  apply List.Forall_forall; intros v Hv.
  apply in_map_iff in Hv as (xj & <- & _). apply HP.
Qed.

Lemma magnitude_nonneg (v : vec) : 0 <= magnitude v.
Proof. apply sqrt_pos. Qed.

Lemma magnitude_zero_iff (v : vec) : magnitude v = 0 <-> v = (0, 0).
Proof.
  unfold magnitude; split.
  - intros H. apply sqrt_eq_0 in H; [|nra].
    apply vec_eq; cbn [fst snd]; nra.
  - intros ->; cbn [fst snd].
    replace (0 ^ 2 + 0 ^ 2) with 0 by ring. apply sqrt_0.
Qed.

Lemma magnitude_sq (v : vec) : magnitude v ^ 2 = fst v ^ 2 + snd v ^ 2.
Proof. unfold magnitude. apply pow2_sqrt. nra. Qed.

(** X9. The magnitude array of "secondTry.py": for a density of at
    least 2, [E_magnitude] has the shape of the grid, holds the
    magnitude of the field at each grid node, and has no negative
    entry. *)
Theorem field_magnitude_sampled (charges : list charge) (x_range y_range : R * R)
    (grid_density : nat) :
  (2 <= grid_density)%nat ->
  let x := linspace (fst x_range) (snd x_range) grid_density in
  let y := linspace (fst y_range) (snd y_range) grid_density in
  SecondTry.field_magnitude charges x_range y_range grid_density
  = Ok (sampled (fun xj yi =>
                   magnitude (SecondTry.get_electric_field charges xj yi)) x y)
  /\ has_shape
       (sampled (fun xj yi =>
                   magnitude (SecondTry.get_electric_field charges xj yi)) x y)
       (grid_density, grid_density)
  /\ Forall (Forall (fun v => 0 <= v))
       (sampled (fun xj yi =>
                   magnitude (SecondTry.get_electric_field charges xj yi)) x y).
Proof.
  intros Hd x y. split; [|split].
  - unfold SecondTry.field_magnitude, SecondTry.create_plot.
    rewrite (sample_ok _ SecondTry.get_electric_field)
      by (intros; apply evaluate_checked_ok, second_try_skip_zero).
    rewrite bind_Ok. f_equal.
    apply (E_magnitude_sampled (SecondTry.get_electric_field charges)).
  - apply sampled_has_shape; [lia | apply linspace_length ..].
  - apply sampled_Forall; intros; apply magnitude_nonneg.
Qed.

Lemma field_magnitude_sampled_witness :
  exists E_mag : array2,
    SecondTry.field_magnitude SecondTry.default_charges (-10, 10) (-10, 10) 25
    = Ok E_mag
    /\ has_shape E_mag (25, 25)%nat.
Proof.
  destruct (field_magnitude_sampled SecondTry.default_charges
              (-10, 10) (-10, 10) 25 ltac:(lia)) as (H1 & H2 & _).
  eexists; split; [exact H1 | exact H2].
Defined.

Lemma true_divide_unit (v : vec) :
  (v = (0, 0) ->
   true_divide (fst v) (magnitude v) = NaN
   /\ true_divide (snd v) (magnitude v) = NaN)
  /\ (v <> (0, 0) ->
      true_divide (fst v) (magnitude v) = Finite (fst v / magnitude v)
      /\ true_divide (snd v) (magnitude v) = Finite (snd v / magnitude v)
      /\ (fst v / magnitude v) ^ 2 + (snd v / magnitude v) ^ 2 = 1).
Proof.
  split.
  - intros ->. rewrite (proj2 (magnitude_zero_iff (0, 0)) eq_refl).
    unfold true_divide; cbn [fst snd].
    destruct (Req_dec_T 0 0); [split; reflexivity | contradiction].
  - intros Hv.
    assert (Hm : magnitude v <> 0) by (intros H; now apply magnitude_zero_iff in H).
    unfold true_divide. destruct (Req_dec_T (magnitude v) 0); [contradiction|].
    split; [reflexivity|]. split; [reflexivity|].
    pose proof (magnitude_sq v) as Hsq.
    replace ((fst v / magnitude v) ^ 2 + (snd v / magnitude v) ^ 2)
      with ((fst v ^ 2 + snd v ^ 2) / magnitude v ^ 2) by (field; exact Hm).
    rewrite <- Hsq. field. exact Hm.
Qed.

(** X10. The normalised field of "first try.py": [Ex_norm] and
    [Ey_norm] hold, at each grid node, the components of the field
    divided by its magnitude. Where the field is not [(0, 0)] this is a
    vector of length 1; where it is [(0, 0)] both entries are [nan]; no
    entry is ever an infinity. *)
Theorem normalized_field_unit_or_nan (charges : list charge)
    (x_range y_range : R * R) (grid_density : nat) :
  let x := linspace (fst x_range) (snd x_range) grid_density in
  let y := linspace (fst y_range) (snd y_range) grid_density in
  let E := FirstTry.get_electric_field charges in
  FirstTry.normalized_field charges x_range y_range grid_density
  = Ok (grid_of (fun xj yi =>
                   true_divide (fst (E xj yi)) (magnitude (E xj yi))) x y,
        grid_of (fun xj yi =>
                   true_divide (snd (E xj yi)) (magnitude (E xj yi))) x y)
  /\ (forall xj yi : R,
        (E xj yi = (0, 0) ->
         true_divide (fst (E xj yi)) (magnitude (E xj yi)) = NaN
         /\ true_divide (snd (E xj yi)) (magnitude (E xj yi)) = NaN)
        /\ (E xj yi <> (0, 0) ->
            exists ux uy : R,
              true_divide (fst (E xj yi)) (magnitude (E xj yi)) = Finite ux
              /\ true_divide (snd (E xj yi)) (magnitude (E xj yi)) = Finite uy
              /\ ux ^ 2 + uy ^ 2 = 1)
        /\ (forall s : bool,
              true_divide (fst (E xj yi)) (magnitude (E xj yi)) <> Inf s
              /\ true_divide (snd (E xj yi)) (magnitude (E xj yi)) <> Inf s)).
Proof.
  intros x y E. split.
  - unfold FirstTry.normalized_field, FirstTry.plot_electric_field.
    rewrite (sample_ok _ FirstTry.get_electric_field)
      by (intros; apply evaluate_checked_ok, first_try_skip_zero).
    rewrite bind_Ok. unfold normalize.
    rewrite (E_magnitude_sampled (FirstTry.get_electric_field charges)).
    f_equal. f_equal; apply (zip_with_grid true_divide).
  - intros xj yi.
    destruct (true_divide_unit (E xj yi)) as [Hzero Hunit].
    split; [exact Hzero|]. split.
    + intros Hne. destruct (Hunit Hne) as (Hx & Hy & Hone).
      eexists _, _. split; [exact Hx|]. split; [exact Hy | exact Hone].
    + intros s.
      destruct (Req_dec_T (fst (E xj yi)) 0) as [Hx0|Hx0];
        destruct (Req_dec_T (snd (E xj yi)) 0) as [Hy0|Hy0].
      * assert (HE : E xj yi = (0, 0)) by (apply vec_eq; assumption).
        destruct (Hzero HE) as [-> ->]. split; discriminate.
      * assert (HE : E xj yi <> (0, 0)) by (intros H; rewrite H in Hy0; now apply Hy0).
        destruct (Hunit HE) as (-> & -> & _). split; discriminate.
      * assert (HE : E xj yi <> (0, 0)) by (intros H; rewrite H in Hx0; now apply Hx0).
        destruct (Hunit HE) as (-> & -> & _). split; discriminate.
      * assert (HE : E xj yi <> (0, 0)) by (intros H; rewrite H in Hx0; now apply Hx0).
        destruct (Hunit HE) as (-> & -> & _). split; discriminate.
Qed.

Lemma normalized_field_unit_or_nan_witness :
  true_divide (fst (FirstTry.get_electric_field [] 0 0))
    (magnitude (FirstTry.get_electric_field [] 0 0)) = NaN
  /\ exists ux uy : R,
       true_divide (fst (FirstTry.get_electric_field [(1, -2, 0); (-1, 2, 0)] 0 0))
         (magnitude (FirstTry.get_electric_field [(1, -2, 0); (-1, 2, 0)] 0 0))
       = Finite ux
       /\ true_divide (snd (FirstTry.get_electric_field [(1, -2, 0); (-1, 2, 0)] 0 0))
            (magnitude (FirstTry.get_electric_field [(1, -2, 0); (-1, 2, 0)] 0 0))
          = Finite uy
       /\ ux ^ 2 + uy ^ 2 = 1.
Proof.
  pose proof (normalized_field_unit_or_nan [] (-10, 10) (-10, 10) 20)
    as H0; cbv zeta in H0.
  pose proof (normalized_field_unit_or_nan [(1, -2, 0); (-1, 2, 0)]
                (-10, 10) (-10, 10) 20) as H1; cbv zeta in H1.
  destruct H0 as [_ H0]. destruct (H0 0 0) as (H0x & _).
  destruct H1 as [_ H1]. destruct (H1 0 0) as (_ & H1u & _).
  split.
  - apply H0x. reflexivity.
  - apply H1u.
    unfold FirstTry.get_electric_field.
    rewrite dipole_field by (apply first_try_skip_false; lra).
    intros H. injection H as H. lra.
Defined.

(** ** The grid axes *)

Lemma linspace_lookup_inv (start stop u : R) (num k : nat) :
  (2 <= num)%nat -> linspace start stop num !! k = Some u ->
  (k < num)%nat /\ u = start + INR k * ((stop - start) / INR (num - 1)).
Proof.
  intros Hnum Hk.
  assert (Hlt : (k < num)%nat)
    by (apply lookup_lt_Some in Hk; now rewrite linspace_length in Hk).
  rewrite linspace_lookup in Hk by assumption.
  split; [exact Hlt | congruence].
Qed.

Lemma linspace_step_pos (start stop : R) (num : nat) :
  (2 <= num)%nat -> start < stop -> 0 < (stop - start) / INR (num - 1).
Proof.
  intros Hnum Hlt. apply Rdiv_lt_0_compat; [lra|].
  apply lt_0_INR; lia.
Qed.

Lemma linspace_within (start stop : R) (num : nat) :
  (2 <= num)%nat -> start < stop ->
  Forall (fun u => start <= u <= stop) (linspace start stop num).
Proof.
  intros Hnum Hlt.
  pose proof (linspace_step_pos start stop num Hnum Hlt) as Hstep.
  apply Forall_lookup; intros k u Hk.
  apply linspace_lookup_inv in Hk as [Hk ->]; [|exact Hnum].
  assert (Hd : INR (num - 1) <> 0) by (apply not_0_INR; lia).
  assert (Hk0 : 0 <= INR k) by apply pos_INR.
  assert (Hk1 : INR k <= INR (num - 1)) by (apply le_INR; lia).
  split; [nra|].
  replace stop with (start + INR (num - 1) * ((stop - start) / INR (num - 1)))
    at 2 by (field; exact Hd).
  nra.
Qed.

Lemma linspace_symmetric (r u : R) (num k : nat) :
  (2 <= num)%nat ->
  linspace (- r) r num !! k = Some u ->
  linspace (- r) r num !! (num - 1 - k)%nat = Some (- u).
Proof.
  intros Hnum Hk.
  apply linspace_lookup_inv in Hk as [Hk ->]; [|exact Hnum].
  rewrite linspace_lookup by lia. f_equal.
  assert (Hd : INR (num - 1) <> 0) by (apply not_0_INR; lia).
  rewrite minus_INR by lia. field; exact Hd.
Qed.

(** ** The page *)

(** X12. The main area of the page: for every position of the two
    sliders (density 10 to 50, range 1 to 20) an empty charge list gives
    the warning and no plot, and a non-empty one gives [create_plot]'s
    arrays without an error: the field sampled on a square grid of
    [grid_density] by [grid_density] nodes whose coordinates lie in
    [[-plot_range, plot_range]]. *)
Theorem main_area_plots (charges : list charge) (grid_density plot_range : nat) :
  (10 <= grid_density <= 50)%nat -> (1 <= plot_range <= 20)%nat ->
  let axis := linspace (- INR plot_range) (INR plot_range) grid_density in
  let Ex := sampled (fun xj yi =>
                fst (SecondTry.get_electric_field charges xj yi)) axis axis in
  let Ey := sampled (fun xj yi =>
                snd (SecondTry.get_electric_field charges xj yi)) axis axis in
  (charges = [] -> SecondTry.main_area charges grid_density plot_range = None)
  /\ (charges <> [] ->
      SecondTry.main_area charges grid_density plot_range = Some (Ok (Ex, Ey)))
  /\ has_shape Ex (grid_density, grid_density)
  /\ has_shape Ey (grid_density, grid_density)
  /\ Forall (fun u => - INR plot_range <= u <= INR plot_range) axis.
Proof.
  intros Hd Hr axis Ex Ey.
  assert (Hpos : 0 < INR plot_range) by (apply lt_0_INR; lia).
  split; [intros ->; reflexivity|].
  split.
  { intros Hne. destruct charges as [|c rest]; [contradiction|].
    unfold SecondTry.main_area, SecondTry.create_plot. f_equal.
    apply (sample_ok _ SecondTry.get_electric_field).
    intros; apply evaluate_checked_ok, second_try_skip_zero. }
  split; [apply sampled_has_shape; [lia | apply linspace_length ..]|].
  split; [apply sampled_has_shape; [lia | apply linspace_length ..]|].
  apply linspace_within; [lia | lra].
Qed.

Lemma main_area_plots_witness :
  exists Ex Ey : array2,
    SecondTry.main_area SecondTry.default_charges 25 10 = Some (Ok (Ex, Ey))
    /\ has_shape Ex (25, 25)%nat /\ has_shape Ey (25, 25)%nat.
Proof.
  destruct (main_area_plots SecondTry.default_charges 25 10
              ltac:(lia) ltac:(lia)) as (_ & Hplot & Hx & Hy & _).
  eexists _, _. split; [apply Hplot; discriminate|].
  split; [exact Hx | exact Hy].
Defined.

(** ** The sampled arrays *)

Lemma grid_of_ext {A : Type} (g g' : R -> R -> A) (x y : list R) :
  (forall xj yi, g xj yi = g' xj yi) -> grid_of g x y = grid_of g' x y.
Proof.
  intros Hg. unfold grid_of.
  apply map_ext; intros yi. apply map_ext; intros xj. apply Hg.
Qed.

Lemma sampled_superposes (skip : R -> bool) (proj : vec -> R)
    (charges more : list charge) (x y : list R) :
  (forall u v, proj (vadd u v) = proj u + proj v) ->
  sampled (fun xj yi => proj (evaluate skip (charges ++ more) xj yi)) x y
  = zip_with (zip_with Rplus)
      (sampled (fun xj yi => proj (evaluate skip charges xj yi)) x y)
      (sampled (fun xj yi => proj (evaluate skip more xj yi)) x y).
Proof.
  intros Hproj. symmetry.
  etransitivity;
    [exact (zip_with_grid Rplus
              (fun xj yi => proj (evaluate skip charges xj yi))
              (fun xj yi => proj (evaluate skip more xj yi)) x y)|].
  apply grid_of_ext; intros xj yi. now rewrite evaluate_app, Hproj.
Qed.

(** X16. Superposition on the grid, in exact arithmetic: the arrays
    sampled for the concatenation of two charge lists are the
    entry-by-entry sums of the arrays sampled for each list, over the
    same ranges and density, in both files. *)
Theorem sampled_field_superposes (charges more : list charge)
    (x_range y_range : R * R) (grid_density : nat) :
  (exists Ex1 Ey1 Ex2 Ey2 : array2,
     FirstTry.plot_electric_field charges x_range y_range grid_density
     = Ok (Ex1, Ey1)
     /\ FirstTry.plot_electric_field more x_range y_range grid_density
        = Ok (Ex2, Ey2)
     /\ FirstTry.plot_electric_field (charges ++ more) x_range y_range
          grid_density
        = Ok (zip_with (zip_with Rplus) Ex1 Ex2,
              zip_with (zip_with Rplus) Ey1 Ey2))
  /\ (exists Ex1 Ey1 Ex2 Ey2 : array2,
        SecondTry.create_plot charges x_range y_range grid_density
        = Ok (Ex1, Ey1)
        /\ SecondTry.create_plot more x_range y_range grid_density
           = Ok (Ex2, Ey2)
        /\ SecondTry.create_plot (charges ++ more) x_range y_range
             grid_density
           = Ok (zip_with (zip_with Rplus) Ex1 Ex2,
                 zip_with (zip_with Rplus) Ey1 Ey2)).
Proof.
  split; eexists _, _, _, _.
  - unfold FirstTry.plot_electric_field.
    rewrite !(sample_ok _ FirstTry.get_electric_field)
      by (intros; apply evaluate_checked_ok, first_try_skip_zero).
    split; [reflexivity|]. split; [reflexivity|].
    unfold FirstTry.get_electric_field.
    now rewrite <- !sampled_superposes by reflexivity.
  - unfold SecondTry.create_plot.
    rewrite !(sample_ok _ SecondTry.get_electric_field)
      by (intros; apply evaluate_checked_ok, second_try_skip_zero).
    split; [reflexivity|]. split; [reflexivity|].
    unfold SecondTry.get_electric_field.
    now rewrite <- !sampled_superposes by reflexivity.
Qed.

Lemma sampled_origin_antisymmetric (skip : R -> bool) (proj : vec -> R)
    (q r : R) (num i j : nat) :
  (forall u, proj (vopp u) = - proj u) ->
  (2 <= num)%nat -> (i < num)%nat -> (j < num)%nat ->
  exists e : R,
    load (sampled (fun xj yi => proj (evaluate skip [(q, 0, 0)] xj yi))
            (linspace (- r) r num) (linspace (- r) r num)) i j = Ok e
    /\ load (sampled (fun xj yi => proj (evaluate skip [(q, 0, 0)] xj yi))
               (linspace (- r) r num) (linspace (- r) r num))
         (num - 1 - i) (num - 1 - j) = Ok (- e).
Proof.
  intros Hproj Hnum Hi Hj.
  pose proof (linspace_lookup (- r) r num i Hnum Hi) as Hyi.
  pose proof (linspace_lookup (- r) r num j Hnum Hj) as Hxj.
  pose proof (linspace_symmetric r _ num i Hnum Hyi) as Hyi'.
  pose proof (linspace_symmetric r _ num j Hnum Hxj) as Hxj'.
  eexists. split.
  - apply (sampled_lookup _ _ _ i j _ _ Hxj Hyi).
  - rewrite (sampled_lookup _ _ _ _ _ _ _ Hxj' Hyi').
    now rewrite evaluate_origin_charge_opp, Hproj.
Qed.

(** X17. Point symmetry on the grid, in exact arithmetic: for a single
    charge at the origin sampled over the square [(-r, r)] by [(-r, r)]
    with a density of at least 2, the entry of [Ex] (and of [Ey]) at the
    node opposite to [(i, j)] through the centre of the grid is the
    opposite of the entry at [(i, j)], in both files. *)
Theorem origin_charge_grid_antisymmetric (q r : R) (grid_density i j : nat) :
  (2 <= grid_density)%nat -> (i < grid_density)%nat -> (j < grid_density)%nat ->
  (exists (Ex Ey : array2) (ex ey : R),
     FirstTry.plot_electric_field [(q, 0, 0)] (- r, r) (- r, r) grid_density
     = Ok (Ex, Ey)
     /\ load Ex i j = Ok ex /\ load Ey i j = Ok ey
     /\ load Ex (grid_density - 1 - i) (grid_density - 1 - j) = Ok (- ex)
     /\ load Ey (grid_density - 1 - i) (grid_density - 1 - j) = Ok (- ey))
  /\ (exists (Ex Ey : array2) (ex ey : R),
        SecondTry.create_plot [(q, 0, 0)] (- r, r) (- r, r) grid_density
        = Ok (Ex, Ey)
        /\ load Ex i j = Ok ex /\ load Ey i j = Ok ey
        /\ load Ex (grid_density - 1 - i) (grid_density - 1 - j) = Ok (- ex)
        /\ load Ey (grid_density - 1 - i) (grid_density - 1 - j) = Ok (- ey)).
Proof.
  intros Hd Hi Hj. split.
  - destruct (sampled_origin_antisymmetric FirstTry.skip fst q r
                grid_density i j ltac:(reflexivity) Hd Hi Hj)
      as (ex & Hex & Hex').
    destruct (sampled_origin_antisymmetric FirstTry.skip snd q r
                grid_density i j ltac:(reflexivity) Hd Hi Hj)
      as (ey & Hey & Hey').
    eexists _, _, ex, ey. split.
    + unfold FirstTry.plot_electric_field.
      apply (sample_ok _ FirstTry.get_electric_field).
      intros; apply evaluate_checked_ok, first_try_skip_zero.
    + cbn [fst snd]. repeat split; assumption.
  - destruct (sampled_origin_antisymmetric SecondTry.skip fst q r
                grid_density i j ltac:(reflexivity) Hd Hi Hj)
      as (ex & Hex & Hex').
    destruct (sampled_origin_antisymmetric SecondTry.skip snd q r
                grid_density i j ltac:(reflexivity) Hd Hi Hj)
      as (ey & Hey & Hey').
    eexists _, _, ex, ey. split.
    + unfold SecondTry.create_plot.
      apply (sample_ok _ SecondTry.get_electric_field).
      intros; apply evaluate_checked_ok, second_try_skip_zero.
    + cbn [fst snd]. repeat split; assumption.
Qed.

Lemma origin_charge_grid_antisymmetric_witness :
  exists (Ex Ey : array2) (ex ey : R),
    SecondTry.create_plot [(1, 0, 0)] (- 10, 10) (- 10, 10) 25 = Ok (Ex, Ey)
    /\ load Ex 3 7 = Ok ex /\ load Ey 3 7 = Ok ey
    /\ load Ex (25 - 1 - 3) (25 - 1 - 7) = Ok (- ex)
    /\ load Ey (25 - 1 - 3) (25 - 1 - 7) = Ok (- ey).
Proof.
  apply (origin_charge_grid_antisymmetric 1 10 25 3 7); lia.
Defined.
